(** * Depth-colour fusion visualizer and frame grabber

    A shallow embedding of [src/libs/4d/src/data_visualizer.cpp]:
    the helper [resizeImg], [DataVisualizer::init] and
    [DataVisualizer::process], and the acquire loop
    [RealsenseGrabber::run], together with the properties of the
    specification that concern them.

    Images are [cv::Mat] values: a row count, a column count and a
    row-major buffer.  The [float] arithmetic of the fusion and of the
    false-colour step is IEEE-754 binary32, taken from the standard
    library's [SpecFloat] at precision 24 and maximal exponent 128. *)

From Stdlib Require Import ZArith QArith Qround Qabs Lia Bool Ascii String.
From Stdlib Require Import Floats.SpecFloat.
From stdpp Require Import base list.

Local Open Scope Z_scope.

(** ** Integer ranges, for exhaustive checks over 8- and 16-bit values *)

Fixpoint Zrange (lo : Z) (n : nat) : list Z :=
  match n with
  | O => []
  | S n' => lo :: Zrange (lo + 1) n'
  end.

(** ** binary32 arithmetic *)

Module F32.

Definition prec : Z := 24.
Definition emax : Z := 128.

Definition float : Type := spec_float.

(** Conversion of an integer to [float] (round to nearest even). *)
Definition of_int (z : Z) : float := binary_normalize prec emax z 0 false.

Definition mul : float -> float -> float := SFmul prec emax.
Definition div : float -> float -> float := SFdiv prec emax.
Definition sub : float -> float -> float := SFsub prec emax.
Definition leb : float -> float -> bool := SFleb.

(** The magnitude of a finite float, as a numerator over a power of two. *)
Definition shift_div (m : positive) (e : Z) : Z * Z :=
  match e with
  | Z0 => (Zpos m, 0)
  | Zpos _ => (Zpos m * 2 ^ e, 0)
  | Zneg k => (Zpos m / 2 ^ Zpos k, Zpos m mod 2 ^ Zpos k)
  end.

(** [int(x)]: conversion to a signed integer truncates toward zero.
    Infinities and NaN have no defined conversion in C++; they do not
    arise below and are sent to 0. *)
Definition to_int (x : float) : Z :=
  match x with
  | S754_finite s m e => cond_Zopp s (fst (shift_div m e))
  | _ => 0
  end.

(** [cvRound(x)]: the nearest integer, ties to the even one. *)
Definition cvRound (x : float) : Z :=
  match x with
  | S754_finite s m e =>
      let '(q, r) := shift_div m e in
      let half := match e with Zneg k => 2 ^ (Zpos k - 1) | _ => 1 end in
      cond_Zopp s
        (match r ?= half with
         | Lt => q
         | Gt => q + 1
         | Eq => if Z.even q then q else q + 1
         end)
  | _ => 0
  end.

End F32.

(** ** The OpenCV values the program manipulates *)

Module Cv.

(** *** [cv::Vec3b]: three 8-bit channels *)

Record Vec3b : Type := mkVec3b { val0 : Z; val1 : Z; val2 : Z }.

Definition Vec_get (v : Vec3b) (k : nat) : Z :=
  match k with
  | O => val0 v
  | S O => val1 v
  | _ => val2 v
  end.

Definition Vec_set (v : Vec3b) (k : nat) (x : Z) : Vec3b :=
  match k with
  | O => mkVec3b x (val1 v) (val2 v)
  | S O => mkVec3b (val0 v) x (val2 v)
  | _ => mkVec3b (val0 v) (val1 v) x
  end.

Definition is_uchar (z : Z) : Prop := 0 <= z < 256.
Definition is_ushort (z : Z) : Prop := 0 <= z < 65536.
Definition Vec3b_ok (v : Vec3b) : Prop :=
  is_uchar (val0 v) /\ is_uchar (val1 v) /\ is_uchar (val2 v).

(** The C++ conversion [uchar(n)] of an [int]. *)
Definition uchar (z : Z) : Z := z mod 256.

(** [saturate_cast<uchar>(int)] and [saturate_cast<uchar>(float)]. *)
Definition saturate_uchar (z : Z) : Z := Z.max 0 (Z.min z 255).
Definition saturate_uchar_f (x : F32.float) : Z := saturate_uchar (F32.cvRound x).

(** [alpha * v] for a [float] and a [Vec3b] ([Matx_ScaleOp]): every channel
    is multiplied in [float] and saturated back to 8 bits. *)
Definition Vec_scale (alpha : F32.float) (a : Vec3b) : Vec3b :=
  mkVec3b (saturate_uchar_f (F32.mul (F32.of_int (val0 a)) alpha))
          (saturate_uchar_f (F32.mul (F32.of_int (val1 a)) alpha))
          (saturate_uchar_f (F32.mul (F32.of_int (val2 a)) alpha)).

(** [a + b] on [Vec3b] ([Matx_AddOp]): channel sums, saturated. *)
Definition Vec_add (a b : Vec3b) : Vec3b :=
  mkVec3b (saturate_uchar (val0 a + val0 b))
          (saturate_uchar (val1 a + val1 b))
          (saturate_uchar (val2 a + val2 b)).

(** *** [cv::Mat] *)

(** The value [cv::Mat::zeros] fills a matrix with, per element type. *)
Class Pixel (A : Type) : Type := px_zero : A.
#[export] Instance Pixel_Z : Pixel Z := 0.
#[export] Instance Pixel_Vec3b : Pixel Vec3b := mkVec3b 0 0 0.

Record Mat (A : Type) : Type := mkMat { rows : nat; cols : nat; data : list A }.
Arguments mkMat {A} _ _ _.
Arguments rows {A} _.
Arguments cols {A} _.
Arguments data {A} _.

Section MatOps.
Context {A : Type} `{Pixel A}.

(** The buffer holds exactly [rows * cols] elements. *)
Definition Mat_wf (m : Mat A) : Prop :=
  length (data m) = (rows m * cols m)%nat.

Definition in_Mat (m : Mat A) (i j : nat) : bool :=
  (i <? rows m)%nat && (j <? cols m)%nat.

Definition zeros (h w : nat) : Mat A :=
  mkMat h w (replicate (h * w) px_zero).

Definition Mat_empty (m : Mat A) : bool := (rows m * cols m =? 0)%nat.

(** [m.at<A>(i, j)] as an r-value.  OpenCV does not check the indices in
    release builds; the program never reads outside a matrix, and such a
    read is given the zero element here. *)
Definition Mat_at (m : Mat A) (i j : nat) : A :=
  if in_Mat m i j then default px_zero (data m !! (i * cols m + j)%nat)
  else px_zero.

(** [m.at<A>(i, j) = v].  A store outside the matrix is undefined in C++;
    it is left out of the model (the matrix is unchanged). *)
Definition Mat_set (m : Mat A) (i j : nat) (v : A) : Mat A :=
  if in_Mat m i j
  then mkMat (rows m) (cols m) (<[(i * cols m + j)%nat := v]> (data m))
  else m.

(** A matrix given by its elements, row after row. *)
Definition Mat_build (h w : nat) (f : nat -> nat -> A) : Mat A :=
  mkMat h w (flat_map (fun i => List.map (f i) (seq 0 w)) (seq 0 h)).

(** [for (int i = 0; i < n; ++i) body] over a state. *)
Definition for_loop {S : Type} (n : nat) (body : nat -> S -> S) (s : S) : S :=
  foldl (fun s i => body i s) s (seq 0 n).

(** A conditional store, as a loop body performs it. *)
Definition Mat_upd (m : Mat A) (i j : nat) (o : option A) : Mat A :=
  match o with
  | Some v => Mat_set m i j v
  | None => m
  end.

(** What the stores [g] of a loop leave at [(i', j')], given the bound
    [P] on the pixels visited so far. *)
Definition visited_value (g : nat -> nat -> option A) (P : nat -> nat -> bool)
    (m : Mat A) (i' j' : nat) : A :=
  if P i' j' then default (Mat_at m i' j') (g i' j') else Mat_at m i' j'.

End MatOps.

(** *** [cv::resize] with [INTER_NEAREST] *)

(** Rounding of a rational to the nearest integer, ties to even
    ([saturate_cast<int>] of a [double]). *)
Definition Qround_even (q : Q) : Z :=
  let f := Qfloor q in
  match Qcompare (q - inject_Z f) (1 # 2) with
  | Lt => f
  | Gt => f + 1
  | Eq => if Z.even f then f else f + 1
  end.

(** Modelled from the spec: [cv::resize] is OpenCV's routine and not part
    of the sources; the specification names it nearest-neighbour sampling
    that normalises any shape to the target size.  The model follows
    OpenCV's documented algorithm: an empty [dsize] is replaced by
    [(round (fx * cols), round (fy * rows))]; destination pixel [(y, x)]
    samples source pixel [(min (floor (y * ify)) (rows - 1),
    min (floor (x * ifx)) (cols - 1))], where the inverse scales are
    [1 / fx], [1 / fy] when [dsize] was empty and the ratio of source to
    destination size otherwise.  Scales are exact rationals.  [dsize] is
    [(width, height)], as [cv::Size]. *)
Definition resize_nearest {A : Type} `{Pixel A}
    (src : Mat A) (dsize : nat * nat) (fx fy : Q) : Mat A :=
  let sw := cols src in
  let sh := rows src in
  let '(dw, dh, ifx, ify) :=
    if ((fst dsize =? 0) || (snd dsize =? 0))%nat
    then (Z.to_nat (Qround_even (inject_Z (Z.of_nat sw) * fx)),
          Z.to_nat (Qround_even (inject_Z (Z.of_nat sh) * fy)),
          Qinv fx, Qinv fy)
    else (fst dsize, snd dsize,
          Qmake (Z.of_nat sw) (Pos.of_nat (fst dsize)),
          Qmake (Z.of_nat sh) (Pos.of_nat (snd dsize))) in
  let sx (x : nat) : nat :=
    Nat.min (Z.to_nat (Qfloor (inject_Z (Z.of_nat x) * ifx))) (sw - 1) in
  let sy (y : nat) : nat :=
    Nat.min (Z.to_nat (Qfloor (inject_Z (Z.of_nat y) * ify))) (sh - 1) in
  Mat_build dh dw (fun y x => Mat_at src (sy y) (sx x)).

End Cv.

(** ** Frames and stream parameters *)

(** [Frame]: one colour image, one dense depth image (possibly empty) and
    a point cloud.  The type of the cloud's points comes from the geometry
    headers and stays a parameter. *)
Record Frame (Point3 : Type) : Type := mkFrame {
  color : Cv.Mat Cv.Vec3b;
  depth : Cv.Mat Z;
  cloud : list Point3
}.
Arguments mkFrame {Point3} _ _ _.
Arguments color {Point3} _.
Arguments depth {Point3} _.
Arguments cloud {Point3} _.

(** [CameraParams]: the native resolution of a stream, and the intrinsic
    parameters, opaque here, that the projection consumes. *)
Record CameraParams (Intrinsics : Type) : Type := mkCameraParams {
  cam_w : nat;
  cam_h : nat;
  cam_intrinsics : Intrinsics
}.
Arguments mkCameraParams {Intrinsics} _ _ _.
Arguments cam_w {Intrinsics} _.
Arguments cam_h {Intrinsics} _.
Arguments cam_intrinsics {Intrinsics} _.

(** ** Decimal output of the frame counter *)

Module Fmt.

Definition digit (n : Z) : ascii := ascii_of_nat (48 + Z.to_nat n).

(** The decimal digits of a non-negative integer, most significant first. *)
Fixpoint dec_digits (fuel : nat) (n : Z) : list ascii :=
  match fuel with
  | O => []
  | S fuel' =>
      if n <? 10 then [digit n]
      else dec_digits fuel' (n / 10) ++ [digit (n mod 10)]
  end.

(** [os << n] for an integer. *)
Definition int_chars (n : Z) : list ascii :=
  if n <? 0 then "-"%char :: dec_digits (S (Z.to_nat (Z.log2 (- n)))) (- n)
  else dec_digits (S (Z.to_nat (Z.log2 n))) n.

(** [os << std::setw(width) << std::setfill(fill) << n]: the output is
    padded on the left up to [width] characters and never cut. *)
Definition setw_setfill (width : nat) (fill : ascii) (n : Z) : list ascii :=
  let cs := int_chars n in
  replicate (width - length cs) fill ++ cs.

(** The digits of [n] in a field of exactly [k] characters. *)
Fixpoint fixed (k : nat) (n : Z) : list ascii :=
  match k with
  | O => []
  | S k' => fixed k' (n / 10) ++ [digit (n mod 10)]
  end.

(** Lexicographic comparison of character sequences, as strings compare. *)
Definition cmp (a b : list ascii) : comparison :=
  String.compare (string_of_list_ascii a) (string_of_list_ascii b).

(** Reading a digit sequence back as a number. *)
Definition digit_val (c : ascii) : Z := Z.of_nat (nat_of_ascii c) - 48.
Definition is_digit (c : ascii) : bool :=
  (48 <=? nat_of_ascii c)%nat && (nat_of_ascii c <=? 57)%nat.
Definition read_dec (cs : list ascii) : Z :=
  foldl (fun acc c => 10 * acc + digit_val c) 0 cs.

End Fmt.

(** ** [DataVisualizer] *)

Module Visualizer.
Import Cv.

(** [resizeImg]: resample only when the size differs. *)
Definition resizeImg {A : Type} `{Pixel A} (img : Mat A) (w h : nat) : Mat A :=
  if (negb (cols img =? w) || negb (rows img =? h))%nat
  then resize_nearest img (w, h) 0 0
  else img.

(** The constants of the fusion step. *)
Definition maxColor : F32.float := F32.of_int 40.
Definition maxDistMm : F32.float := F32.of_int 6000.
Definition minDistMm : F32.float := F32.of_int 300.

(** [int(maxColor - d * maxColor / maxDistMm)] *)
Definition depthColor (d : Z) : Z :=
  F32.to_int
    (F32.sub maxColor (F32.div (F32.mul (F32.of_int d) maxColor) maxDistMm)).

(** [d <= minDistMm || d >= maxDistMm] *)
Definition out_of_range (d : Z) : bool :=
  F32.leb (F32.of_int d) minDistMm || F32.leb maxDistMm (F32.of_int d).

(** The body of the fusion loop at pixel [(i, j)]. *)
Definition fusion_body (color : Mat Vec3b) (depth : Mat Z) (i j : nat)
    (colorWithDepth : Mat Vec3b) : Mat Vec3b :=
  let d := Mat_at depth i j in
  let c := Mat_at color i j in
  let res := Mat_set colorWithDepth i j c in
  if out_of_range d then res
  else
    let depthColor := depthColor d in
    Mat_set res i j
      (Vec_set (Mat_at res i j) 1 (uchar (Z.min (Vec_get c 1 + depthColor) 255))).

Definition fusion (color : Mat Vec3b) (depth : Mat Z)
    (colorWithDepth : Mat Vec3b) : Mat Vec3b :=
  for_loop (rows depth) (fun i =>
    for_loop (cols depth) (fun j => fusion_body color depth i j))
    colorWithDepth.

(** The effect of the loop body on its pixel. *)
Definition fused_pixel (c : Vec3b) (d : Z) : Vec3b :=
  if out_of_range d then c
  else Vec_set c 1 (uchar (Z.min (Vec_get c 1 + depthColor d) 255)).

(** The exact value [40 - d * 40 / 6000] of the specification. *)
Definition exact_boost (d : Z) : Q := (40 - inject_Z d * 40 / 6000)%Q.

(** Rounding to the nearest integer (halves upward). *)
Definition round_nearest (q : Q) : Z := Qfloor (q + (1 # 2))%Q.

(** The green channel as the specification words it. *)
Definition claimed_green (g d : Z) : Z :=
  Z.min (g + round_nearest (exact_boost d)) 255.

(** The constants of the false-colour step. *)
Definition close : Vec3b := mkVec3b 0 0 255.
Definition far : Vec3b := mkVec3b 255 0 0.
Definition dMin : Z := 800.
Definition dMax : Z := 2500.
Definition dRange : Z := dMax - dMin.

(** [(float(dMax - d) / dRange) * close + (float(d - dMin) / dRange) * far] *)
Definition finalColor (d : Z) : Vec3b :=
  Vec_add
    (Vec_scale (F32.div (F32.of_int (dMax - d)) (F32.of_int dRange)) close)
    (Vec_scale (F32.div (F32.of_int (d - dMin)) (F32.of_int dRange)) far).

(** The exact linear interpolation between [close] and [far] at depth [d],
    for channel [k]. *)
Definition lerp_exact (d : Z) (k : nat) : Q :=
  (inject_Z (dMax - d) / inject_Z dRange * inject_Z (Vec_get close k)
   + inject_Z (d - dMin) / inject_Z dRange * inject_Z (Vec_get far k))%Q.

(** [finalColor] is within a half of the exact interpolation, channel by
    channel. *)
Definition near_lerp (d : Z) : bool :=
  forallb (fun k =>
      Qle_bool (Qabs (inject_Z (Vec_get (finalColor d) k) - lerp_exact d k)) (1 # 2))
    [0; 1; 2]%nat.

(** The body of the false-colour loop at pixel [(i, j)]. *)
Definition pretty_body (depth : Mat Z) (i j : nat)
    (depthPretty : Mat Vec3b) : Mat Vec3b :=
  let d := Mat_at depth i j in
  if d =? 0 then depthPretty
  else
    let d := Z.max d dMin in
    let d := Z.min d dMax in
    Mat_set depthPretty i j (finalColor d).

Definition depthPretty (depth : Mat Z) : Mat Vec3b :=
  for_loop (rows depth) (fun i =>
    for_loop (cols depth) (fun j => pretty_body depth i j))
    (zeros (rows depth) (cols depth)).

(** The name of the recorded file. *)
Definition path : string := "C:\temp\tst\anim\".
Definition frame_index (numFrames : Z) : list ascii :=
  Fmt.setw_setfill 8 "0"%char numFrames.

(** [s << path << std::setw(8) << std::setfill('0') << numFrames
       << "_frame.bmp"], then [s.str()]. *)
Definition file_name_chars (numFrames : Z) : list ascii :=
  list_ascii_of_string path ++ frame_index numFrames
  ++ list_ascii_of_string "_frame.bmp".
Definition file_name (numFrames : Z) : string :=
  string_of_list_ascii (file_name_chars numFrames).

Section WithProjection.

Variables Point3 Intrinsics : Type.

(** [project3dPointTo2d] lives in the geometry library: on success it
    yields the pixel row, the pixel column and the quantized distance. *)
Variable project3dPointTo2d :
  Point3 -> CameraParams Intrinsics -> option (Z * Z * Z).

Record DataVisualizer : Type := mkDataVisualizer {
  colorCamera : CameraParams Intrinsics;
  depthCamera : CameraParams Intrinsics;
  numFrames : Z;
  saveToDisk : bool
}.

(** [init]: once the sensor manager is initialized (the wait is not
    modelled), the stream parameters come from it and the counter is
    reset. *)
Definition init (cFormat dFormat : CameraParams Intrinsics)
    (v : DataVisualizer) : DataVisualizer :=
  {| colorCamera := cFormat; depthCamera := dFormat;
     numFrames := 0; saveToDisk := saveToDisk v |}.

(** [projection.at<uint16_t>(iImg, jImg) = d] with [int] indices. *)
Definition store_int (projection : Mat Z) (iImg jImg d : Z) : Mat Z :=
  if (0 <=? iImg) && (0 <=? jImg)
  then Mat_set projection (Z.to_nat iImg) (Z.to_nat jImg) d
  else projection.

Definition project_store (cam : CameraParams Intrinsics)
    (projection : Mat Z) (p : Point3) : Mat Z :=
  match project3dPointTo2d p cam with
  | Some (iImg, jImg, d) => store_int projection iImg jImg d
  | None => projection
  end.

(** The depth grid synthesized from the cloud. *)
Definition synthesize (cam : CameraParams Intrinsics)
    (cloud : list Point3) : Mat Z :=
  foldl (project_store cam) (zeros (cam_h cam) (cam_w cam)) cloud.

(** The distance a point writes at pixel [(i, j)], if it projects there. *)
Definition hits (cam : CameraParams Intrinsics) (i j : nat) (p : Point3)
    : option Z :=
  match project3dPointTo2d p cam with
  | Some (iImg, jImg, d) =>
      if (iImg =? Z.of_nat i) && (jImg =? Z.of_nat j) then Some d else None
  | None => None
  end.

Definition align_w (v : DataVisualizer) : nat :=
  Nat.min (cam_w (colorCamera v)) (cam_w (depthCamera v)).
Definition align_h (v : DataVisualizer) : nat :=
  Nat.min (cam_h (colorCamera v)) (cam_h (depthCamera v)).

Definition aligned_color (v : DataVisualizer) (frame : Frame Point3) : Mat Vec3b :=
  resizeImg (color frame) (align_w v) (align_h v).

Definition aligned_depth (v : DataVisualizer) (frame : Frame Point3) : Mat Z :=
  if negb (Mat_empty (depth frame))
  then resizeImg (depth frame) (align_w v) (align_h v)
  else resizeImg (synthesize (depthCamera v) (cloud frame)) (align_w v) (align_h v).

(** What one call of [process] does: the image shown, the file written
    (if any) and the visualizer afterwards. *)
Record Processed : Type := mkProcessed {
  shown : Mat Vec3b;
  written : option (string * Mat Vec3b);
  after : DataVisualizer
}.

Definition process (v : DataVisualizer) (frame : Frame Point3) : Processed :=
  let w := align_w v in
  let h := align_h v in
  let colorWithDepth := zeros h w in
  let color := aligned_color v frame in
  let depth := aligned_depth v frame in
  let colorWithDepth := fusion color depth colorWithDepth in
  let written :=
    if saveToDisk v
    then
      let s := file_name (numFrames v) in
      let depthPretty := depthPretty depth in
      let depthPrettyResized := resize_nearest depthPretty (0, 0)%nat 1 1 in
      Some (s, depthPrettyResized)
    else None in
  {| shown := colorWithDepth;
     written := written;
     after := {| colorCamera := colorCamera v; depthCamera := depthCamera v;
                 numFrames := numFrames v + 1; saveToDisk := saveToDisk v |} |}.

(** [process] on a sequence of frames, with what each call did. *)
Fixpoint process_all (v : DataVisualizer) (frames : list (Frame Point3))
    : list Processed * DataVisualizer :=
  match frames with
  | [] => ([], v)
  | frame :: frames' =>
      let r := process v frame in
      let '(rs, v') := process_all (after r) frames' in
      (r :: rs, v')
  end.

End WithProjection.

Arguments colorCamera {Intrinsics} _.
Arguments depthCamera {Intrinsics} _.
Arguments numFrames {Intrinsics} _.
Arguments saveToDisk {Intrinsics} _.
Arguments mkDataVisualizer {Intrinsics} _ _ _ _.
Arguments init {Intrinsics} _ _ _.
Arguments shown {Intrinsics} _.
Arguments written {Intrinsics} _.
Arguments after {Intrinsics} _.
Arguments align_w {Intrinsics} _.
Arguments align_h {Intrinsics} _.
Arguments aligned_color {Point3 Intrinsics} _ _.
Arguments aligned_depth {Point3 Intrinsics} _ _ _.
Arguments synthesize {Point3 Intrinsics} _ _ _.
Arguments project_store {Point3 Intrinsics} _ _ _ _.
Arguments hits {Point3 Intrinsics} _ _ _ _ _.
Arguments process {Point3 Intrinsics} _ _ _.
Arguments process_all {Point3 Intrinsics} _ _ _.

End Visualizer.

(** ** [RealsenseGrabber] *)

Module Grabber.
Import Cv.

(** What the sensor answers during one turn of the acquire loop. *)

(** An image of a sample: its [QueryInfo] size, and the status and the
    first plane that [AcquireAccess] gives. *)
Record Image (A : Type) : Type := mkImage {
  info_width : nat;
  info_height : nat;
  accessStatus : Z;
  planes0 : list A
}.
Arguments mkImage {A} _ _ _ _.
Arguments info_width {A} _.
Arguments info_height {A} _.
Arguments accessStatus {A} _.
Arguments planes0 {A} _.

(** [PXCCapture::Sample]: either image pointer may be null. *)
Record Sample : Type := mkSample {
  sample_color : option (Image Vec3b);
  sample_depth : option (Image Z)
}.

(** One [AcquireFrame] with the [QuerySample] that follows it. *)
Record Acquisition : Type := mkAcquisition {
  status : Z;
  sample : option Sample
}.

Inductive LogEntry : Type :=
  | SampleIsNull
  | ColorIsNull
  | DepthIsNull
  | CapturedColor (numFrames : Z) (width height : nat)
  | CapturedDepth (numFrames : Z) (width height : nat)
  | NoColorAccess (numFrames : Z) (accessStatus : Z)
  | NoDepthAccess (numFrames : Z) (accessStatus : Z)
  | Finished (status : Z).

Section WithSdk.

Variable Point3 : Type.

(** The SDK's threshold between error and success statuses. *)
Variable PXC_STATUS_NO_ERROR : Z.

(** A [FrameQueue], oldest frame first. *)
Definition FrameQueue : Type := list (Frame Point3).

Record Grabber : Type := mkGrabber {
  queues : list FrameQueue;
  numFrames : Z;
  log : list LogEntry
}.

Definition tlog (e : LogEntry) (g : Grabber) : Grabber :=
  {| queues := queues g; numFrames := numFrames g; log := log g ++ [e] |}.

(** [for (auto queue : data->queues) queue->put(frame)] *)
Definition distribute (frame : Frame Point3) (g : Grabber) : Grabber :=
  {| queues := List.map (fun queue => queue ++ [frame]) (queues g);
     numFrames := numFrames g; log := log g |}.

(** A transient error of a sample, in the words of the specification: the
    sample is missing, its colour or its depth buffer is missing, or the
    access to one of the buffers fails. *)
Definition transient_error (a : Acquisition) : bool :=
  match sample a with
  | None => true
  | Some s =>
      match sample_color s, sample_depth s with
      | Some color, Some depth =>
          (accessStatus color <? PXC_STATUS_NO_ERROR)
          || (accessStatus depth <? PXC_STATUS_NO_ERROR)
      | _, _ => true
      end
  end.

(** The frame of a sample without transient error. *)
Definition frame_of (a : Acquisition) : list (Frame Point3) :=
  match sample a with
  | Some {| sample_color := Some color; sample_depth := Some depth |} =>
      if transient_error a then []
      else [mkFrame
              (mkMat (info_height color) (info_width color) (planes0 color))
              (mkMat (info_height depth) (info_width depth) (planes0 depth))
              []]
  | _ => []
  end.

(** The frames handed out on a sequence of answers: those of the samples
    without transient error that come before the first below-threshold
    status. *)
Fixpoint delivered (answers : list Acquisition) : list (Frame Point3) :=
  match answers with
  | [] => []
  | a :: answers' =>
      if PXC_STATUS_NO_ERROR <=? status a
      then frame_of a ++ delivered answers'
      else []
  end.

(** How the acquire loop ended on a given sequence of sensor answers. *)
Inductive Ending : Type :=
  | LoopEnded (lastStatus : Z)
  | StillAcquiring.

(** The body of the [while] loop, once [AcquireFrame] has succeeded. *)
Definition loop_body (a : Acquisition) (g : Grabber) : Grabber :=
  match sample a with
  | None => tlog SampleIsNull g
  | Some s =>
      match sample_color s with
      | None => tlog ColorIsNull g
      | Some color =>
          match sample_depth s with
          | None => tlog DepthIsNull g
          | Some depth =>
              let g := {| queues := queues g; numFrames := numFrames g + 1;
                          log := log g |} in
              let g := tlog (CapturedColor (numFrames g)
                               (info_width color) (info_height color)) g in
              let g := tlog (CapturedDepth (numFrames g)
                               (info_width depth) (info_height depth)) g in
              if accessStatus color <? PXC_STATUS_NO_ERROR
              then tlog (NoColorAccess (numFrames g) (accessStatus color)) g
              else
                let colorMat :=
                  mkMat (info_height color) (info_width color) (planes0 color) in
                if accessStatus depth <? PXC_STATUS_NO_ERROR
                then tlog (NoDepthAccess (numFrames g) (accessStatus depth)) g
                else
                  let depthMat :=
                    mkMat (info_height depth) (info_width depth) (planes0 depth) in
                  distribute (mkFrame colorMat depthMat []) g
          end
      end
  end.

(** The [while] loop against the sensor's successive answers. *)
Fixpoint acquire_loop (answers : list Acquisition) (g : Grabber)
    : Grabber * Ending :=
  match answers with
  | [] => (g, StillAcquiring)
  | a :: answers' =>
      if PXC_STATUS_NO_ERROR <=? status a
      then acquire_loop answers' (loop_body a g)
      else (tlog (Finished (status a)) g, LoopEnded (status a))
  end.

(** [run]: the local counter starts at 0. *)
Definition run (answers : list Acquisition) (qs : list FrameQueue)
    : Grabber * Ending :=
  acquire_loop answers {| queues := qs; numFrames := 0; log := [] |}.

End WithSdk.

Arguments queues {Point3} _.
Arguments numFrames {Point3} _.
Arguments log {Point3} _.
Arguments mkGrabber {Point3} _ _ _.
Arguments loop_body {Point3} _ _ _.
Arguments acquire_loop {Point3} _ _ _.
Arguments run {Point3} _ _ _.
Arguments distribute {Point3} _ _.
Arguments tlog {Point3} _ _.
Arguments frame_of {Point3} _ _.
Arguments delivered {Point3} _ _.

End Grabber.

(** ** Registration of queues and start-up of the grabber *)

Module Setup.
Import Grabber.

(** [RealsenseGrabber::addQueue]: [data->queues.push_back(queue)]. *)
Definition addQueue {Point3 : Type} (queue : list (Frame Point3))
    (g : Grabber Point3) : Grabber Point3 :=
  {| queues := queues g ++ [queue]; numFrames := numFrames g; log := log g |}.

(** What the SDK session answers while [init] lists the capture modules. *)

(** One [QueryDeviceInfo]: its status and the device it describes. *)
Record DeviceAnswer : Type := mkDeviceAnswer {
  deviceStatus : Z;
  deviceName : string;
  deviceModel : Z
}.

(** One [QueryImpl] with, when it succeeds, the [CreateImpl] that follows
    and the successive answers of the capture's [QueryDeviceInfo]. *)
Record ModuleAnswer : Type := mkModuleAnswer {
  queryStatus : Z;
  createStatus : Z;
  friendlyName : string;
  deviceAnswers : list DeviceAnswer
}.

(** What [init] logs and asks of the SDK, in order. *)
Inductive InitEvent : Type :=
  | LogSession
  | LogLoopOverModules
  | LogCreateError (status : Z)
  | LogDevice (deviceIdx : nat) (name : string) (model : Z)
  | LogModule (moduleIdx : nat) (friendlyName : string)
  | ReleaseCapture (moduleIdx : nat)
  | LogEnablingStreams
  | EnableColorStream (width height fps : Z)
  | EnableDepthStream (width height fps : Z)
  | InitManager
  | LogSettingProperties
  | SetColorAutoExposure
  | SetColorAutoWhiteBalance
  | SetDSLeftRightAutoExposure.

Section WithSdk.

Variable PXC_STATUS_NO_ERROR : Z.

(** The inner loop [for (int deviceIdx = 0; ; deviceIdx++)]: the devices
    counted and the lines logged, or nothing while the answers run out
    with the loop still asking. *)
Fixpoint query_devices (deviceIdx : nat) (answers : list DeviceAnswer)
    (numDevices : nat) (events : list InitEvent)
    : option (nat * list InitEvent) :=
  match answers with
  | [] => None
  | a :: answers' =>
      if deviceStatus a <? PXC_STATUS_NO_ERROR
      then Some (numDevices, events)
      else query_devices (S deviceIdx) answers' (S numDevices)
             (events ++ [LogDevice deviceIdx (deviceName a) (deviceModel a)])
  end.

(** The outer loop [for (int moduleIdx = 0; ; ++moduleIdx)]. *)
Fixpoint query_modules (moduleIdx : nat) (answers : list ModuleAnswer)
    (events : list InitEvent) : option (list InitEvent) :=
  match answers with
  | [] => None
  | m :: answers' =>
      if queryStatus m <? PXC_STATUS_NO_ERROR then Some events
      else if createStatus m <? PXC_STATUS_NO_ERROR
      then query_modules (S moduleIdx) answers'
             (events ++ [LogCreateError (createStatus m)])
      else
        match query_devices 0 (deviceAnswers m) 0 events with
        | None => None
        | Some (numDevices, events) =>
            let events :=
              if (0 <? numDevices)%nat
              then events ++ [LogModule moduleIdx (friendlyName m)]
              else events in
            query_modules (S moduleIdx) answers'
              (events ++ [ReleaseCapture moduleIdx])
        end
  end.

(** [RealsenseGrabber::init], given the modules' answers and whether the
    capture manager and its device exist. *)
Definition init (answers : list ModuleAnswer)
    (captureManager device : bool) : option (list InitEvent) :=
  match query_modules 0 answers [LogSession; LogLoopOverModules] with
  | None => None
  | Some events =>
      let events :=
        events ++ [LogEnablingStreams;
                   EnableColorStream 1920 1080 30;
                   EnableDepthStream 480 360 30;
                   InitManager;
                   LogSettingProperties] in
      if negb captureManager then Some events
      else if negb device then Some events
      else Some (events ++ [SetColorAutoExposure;
                            SetColorAutoWhiteBalance;
                            SetDSLeftRightAutoExposure])
  end.

(** The modules looked at: those before the first failing [QueryImpl]. *)
Fixpoint listed (answers : list ModuleAnswer) : list ModuleAnswer :=
  match answers with
  | [] => []
  | m :: answers' =>
      if queryStatus m <? PXC_STATUS_NO_ERROR then []
      else m :: listed answers'
  end.

(** The indices, from [moduleIdx] on, of the modules whose capture was
    created. *)
Fixpoint created (moduleIdx : nat) (answers : list ModuleAnswer) : list nat :=
  match answers with
  | [] => []
  | m :: answers' =>
      if createStatus m <? PXC_STATUS_NO_ERROR
      then created (S moduleIdx) answers'
      else moduleIdx :: created (S moduleIdx) answers'
  end.

(** The devices found: the answers before the first failing one. *)
Fixpoint found (answers : list DeviceAnswer) : list DeviceAnswer :=
  match answers with
  | [] => []
  | a :: answers' =>
      if deviceStatus a <? PXC_STATUS_NO_ERROR then []
      else a :: found answers'
  end.

(** The indices, from [moduleIdx] on, of the modules whose capture was
    created and showed at least one device. *)
Fixpoint named (moduleIdx : nat) (answers : list ModuleAnswer) : list nat :=
  match answers with
  | [] => []
  | m :: answers' =>
      if createStatus m <? PXC_STATUS_NO_ERROR
      then named (S moduleIdx) answers'
      else if (0 <? length (found (deviceAnswers m)))%nat
      then moduleIdx :: named (S moduleIdx) answers'
      else named (S moduleIdx) answers'
  end.

(** The answers let the loops of [init] come to an end: some [QueryImpl]
    fails, and so does some [QueryDeviceInfo] of every capture created
    before that. *)
Definition loops_end (answers : list ModuleAnswer) : bool :=
  existsb (fun m => queryStatus m <? PXC_STATUS_NO_ERROR) answers
  && forallb (fun m =>
        (createStatus m <? PXC_STATUS_NO_ERROR)
        || existsb (fun a => deviceStatus a <? PXC_STATUS_NO_ERROR)
             (deviceAnswers m))
       (listed answers).

(** The samples of a run that come before the loop ends. *)
Fixpoint acquired (answers : list Acquisition) : list Acquisition :=
  match answers with
  | [] => []
  | a :: answers' =>
      if PXC_STATUS_NO_ERROR <=? status a then a :: acquired answers' else []
  end.

End WithSdk.

Definition released (events : list InitEvent) : list nat :=
  omap (fun e => match e with ReleaseCapture i => Some i | _ => None end) events.

Definition logged_modules (events : list InitEvent) : list nat :=
  omap (fun e => match e with LogModule i _ => Some i | _ => None end) events.

(** A sample with both of its buffers. *)
Definition both_buffers (a : Acquisition) : bool :=
  match sample a with
  | Some {| sample_color := Some _; sample_depth := Some _ |} => true
  | _ => false
  end.

(** The log entries that report a skipped sample. *)
Definition is_skip_entry (e : LogEntry) : bool :=
  match e with
  | SampleIsNull | ColorIsNull | DepthIsNull
  | NoColorAccess _ _ | NoDepthAccess _ _ => true
  | _ => false
  end.

End Setup.

(** ** Keyboard events and the visualizer's loop *)

Module Events.

Definition escape : Z := 27.
Definition space : Z := 32.

Section WithAppState.

(** The application state behind [appState()] comes from a header that is
    not part of the sources: its queries and commands are parameters. *)
Variable AppState : Type.
Variables isCapturingStarted isGrabbingStarted : AppState -> bool.
Variables startCapturing startGrabbing stopCapturing : AppState -> AppState.

(** The application state, the cancellation token and the lines logged. *)
Record World : Type := mkWorld {
  app : AppState;
  cancel : bool;
  exiting : nat
}.

(** [handleEvents], on the key that [cv::waitKey(15)] returned. *)
Definition handleEvents (key : Z) (w : World) : World :=
  if key =? space
  then
    if negb (isCapturingStarted (app w))
    then {| app := startCapturing (app w); cancel := cancel w; exiting := exiting w |}
    else if negb (isGrabbingStarted (app w))
    then {| app := startGrabbing (app w); cancel := cancel w; exiting := exiting w |}
    else {| app := stopCapturing (app w); cancel := cancel w; exiting := exiting w |}
  else if key =? escape
  then {| app := stopCapturing (app w); cancel := true; exiting := S (exiting w) |}
  else w.

(** [FrameConsumer::loopBody] is declared in a header that is not part of
    the sources: it is a parameter, acting on the world and on the
    consumer's own state. *)
Variable Consumer : Type.
Variable loopBody : World * Consumer -> World * Consumer.

(** One turn of the loop of [DataVisualizer::run]. *)
Definition turn (s : World * Consumer) (key : Z) : World * Consumer :=
  loopBody (handleEvents key (fst s), snd s).

Inductive Ending : Type :=
  | Cancelled
  | StillPolling.

(** [DataVisualizer::run] against the successive keys of [cv::waitKey]. *)
Fixpoint run (keys : list Z) (s : World * Consumer)
    : World * Consumer * Ending :=
  if cancel (fst s) then (s, Cancelled)
  else
    match keys with
    | [] => (s, StillPolling)
    | key :: keys' => run keys' (turn s key)
    end.

End WithAppState.

Arguments app {AppState} _.
Arguments cancel {AppState} _.
Arguments exiting {AppState} _.
Arguments mkWorld {AppState} _ _ _.

End Events.

(** ** Checks on the false colours *)

Module FalseColour.
Import Cv Visualizer.

(** [d = std::max(d, dMin), d = std::min(d, dMax)] *)
Definition clamp_depth (d : Z) : Z := Z.min (Z.max d dMin) dMax.

(** [finalColor d] holds 8-bit channels and no green. *)
Definition finalColor_valid (d : Z) : bool :=
  (0 <=? val0 (finalColor d)) && (val0 (finalColor d) <? 256)
  && (val1 (finalColor d) =? 0)
  && (0 <=? val2 (finalColor d)) && (val2 (finalColor d) <? 256).

(** From [d] to [d + 1] the first channel does not fall and the last does
    not rise. *)
Definition finalColor_steps (d : Z) : bool :=
  (val0 (finalColor d) <=? val0 (finalColor (d + 1)))
  && (val2 (finalColor (d + 1)) <=? val2 (finalColor d)).

End FalseColour.

(** ** Sample inputs *)

Module Examples.
Import Cv Visualizer.

(** A toy projection on points [(x, y, z)]: straight down the optical
    axis, valid in front of the camera and inside the image. *)
Definition ortho (p : Z * Z * Z) (cam : CameraParams unit)
    : option (Z * Z * Z) :=
  let '(x, y, z) := p in
  if (0 <? z) && (0 <=? x) && (x <? Z.of_nat (cam_w cam))
     && (0 <=? y) && (y <? Z.of_nat (cam_h cam))
  then Some (y, x, z)
  else None.

Definition cam (w h : nat) : CameraParams unit := mkCameraParams w h tt.

Definition gray : Vec3b := mkVec3b 128 128 128.
Definition gray_image (h w : nat) : Mat Vec3b :=
  mkMat h w (replicate (h * w) gray).
Definition flat_depth (h w : nat) (d : Z) : Mat Z :=
  mkMat h w (replicate (h * w) d).

(** A visualizer on two 2x2 streams. *)
Definition visualizer (n : Z) (save : bool) : DataVisualizer unit :=
  mkDataVisualizer (cam 2 2) (cam 2 2) n save.

(** A grey frame at constant depth [d]. *)
Definition frame_at (d : Z) : Frame (Z * Z * Z) :=
  mkFrame (gray_image 2 2) (flat_depth 2 2 d) [].

(** A grey frame without dense depth, with a cloud of five points: two
    project to pixel [(0, 0)], one to [(1, 1)], one lies outside the image
    and one behind the camera. *)
Definition cloud_frame : Frame (Z * Z * Z) :=
  mkFrame (gray_image 2 2) (mkMat 0 0 [])
    [(0, 0, 1000); (5, 5, 700); (1, 1, 900); (0, 0, 1200); (1, 0, -3)].

(** Sensor answers: a good sample, a sample without depth, a sample whose
    colour access fails, an error status, and a good sample never reached. *)
Definition good_sample : Grabber.Acquisition :=
  Grabber.mkAcquisition 0
    (Some (Grabber.mkSample
             (Some (Grabber.mkImage 1 1 0 [gray]))
             (Some (Grabber.mkImage 1 1 0 [1000])))).
Definition no_depth_sample : Grabber.Acquisition :=
  Grabber.mkAcquisition 0
    (Some (Grabber.mkSample (Some (Grabber.mkImage 1 1 0 [gray])) None)).
Definition no_access_sample : Grabber.Acquisition :=
  Grabber.mkAcquisition 0
    (Some (Grabber.mkSample
             (Some (Grabber.mkImage 1 1 (-1) [gray]))
             (Some (Grabber.mkImage 1 1 0 [1000])))).
Definition device_lost : Grabber.Acquisition :=
  Grabber.mkAcquisition (-3) None.

(** A grey frame with four different depths, one of them unknown. *)
Definition mixed_frame : Frame (Z * Z * Z) :=
  mkFrame (gray_image 2 2) (mkMat 2 2 [900; 0; 2000; 3000]) [].

(** A grey frame without dense depth whose two points do not project. *)
Definition void_frame : Frame (Z * Z * Z) :=
  mkFrame (gray_image 2 2) (mkMat 0 0 []) [(5, 5, 700); (1, 0, -3)].

(** Answers of the SDK session: a module with two devices, a module whose
    capture cannot be created, a module without device, and the end of the
    list. *)
Definition two_devices : Setup.ModuleAnswer :=
  Setup.mkModuleAnswer 0 0 "camera"
    [Setup.mkDeviceAnswer 0 "front" 1; Setup.mkDeviceAnswer 0 "rear" 2;
     Setup.mkDeviceAnswer (-3) "" 0].
Definition broken_module : Setup.ModuleAnswer :=
  Setup.mkModuleAnswer 0 (-1) "broken" [].
Definition no_device : Setup.ModuleAnswer :=
  Setup.mkModuleAnswer 0 0 "idle" [Setup.mkDeviceAnswer (-3) "" 0].
Definition no_more_modules : Setup.ModuleAnswer :=
  Setup.mkModuleAnswer (-3) 0 "" [].
Definition session_answers : list Setup.ModuleAnswer :=
  [two_devices; broken_module; no_device; no_more_modules; two_devices].

(** An application state of two switches, and a consumer that counts its
    turns. *)
Definition switches : Type := bool * bool.
Definition start_capturing (a : switches) : switches := (true, snd a).
Definition start_grabbing (a : switches) : switches := (fst a, true).
Definition stop_capturing (a : switches) : switches := (false, false).
Definition count_turn (s : Events.World switches * nat)
    : Events.World switches * nat :=
  (fst s, S (snd s)).
Definition idle_world : Events.World switches * nat :=
  (Events.mkWorld (false, false) false 0, 0%nat).

End Examples.

(** * Properties *)

(** ** Exhaustive checks over a range *)

Lemma Zrange_In (n : nat) : forall lo z,
  lo <= z < lo + Z.of_nat n -> In z (Zrange lo n).
Proof.
  induction n as [|n IH]; intros lo z Hz; [lia|].
  cbn [Zrange]. destruct (Z.eq_dec lo z) as [->|Hne]; [now left|].
  right. apply IH. lia.
Qed.

Lemma Zrange_forallb (P : Z -> bool) (lo : Z) (n : nat) :
  forallb P (Zrange lo n) = true ->
  forall z, lo <= z < lo + Z.of_nat n -> P z = true.
Proof.
  intros Hall z Hz. rewrite forallb_forall in Hall.
  apply Hall, Zrange_In, Hz.
Qed.

(** ** Matrices *)

Section MatFacts.
Import Cv.
Context {A : Type} `{Pixel A}.

Lemma in_Mat_true (m : Mat A) (i j : nat) :
  in_Mat m i j = true <-> (i < rows m /\ j < cols m)%nat.
Proof.
  unfold in_Mat. rewrite andb_true_iff, !Nat.ltb_lt. tauto.
Qed.

Lemma Mat_set_rows (m : Mat A) i j v : rows (Mat_set m i j v) = rows m.
Proof. unfold Mat_set. now destruct (in_Mat m i j). Qed.

Lemma Mat_set_cols (m : Mat A) i j v : cols (Mat_set m i j v) = cols m.
Proof. unfold Mat_set. now destruct (in_Mat m i j). Qed.

Lemma Mat_set_in (m : Mat A) i j v i' j' :
  in_Mat (Mat_set m i j v) i' j' = in_Mat m i' j'.
Proof. unfold in_Mat. now rewrite Mat_set_rows, Mat_set_cols. Qed.

Lemma Mat_set_wf (m : Mat A) i j v : Mat_wf m -> Mat_wf (Mat_set m i j v).
Proof.
  unfold Mat_wf, Mat_set. destruct (in_Mat m i j); cbn; [|easy].
  now rewrite length_insert.
Qed.

Lemma Mat_at_set_eq (m : Mat A) i j v :
  Mat_wf m -> in_Mat m i j = true -> Mat_at (Mat_set m i j v) i j = v.
Proof.
  intros Hwf Hin. unfold Mat_at. rewrite Mat_set_in, Hin.
  unfold Mat_set. rewrite Hin. cbn.
  apply in_Mat_true in Hin. rewrite list_lookup_insert_eq; [easy|].
  rewrite Hwf. nia.
Qed.

Lemma Mat_at_set_ne (m : Mat A) i j v i' j' :
  (i, j) <> (i', j') -> Mat_at (Mat_set m i j v) i' j' = Mat_at m i' j'.
Proof.
  intros Hne. unfold Mat_at. rewrite Mat_set_in.
  destruct (in_Mat m i' j') eqn:Hin'; [|easy].
  unfold Mat_set. destruct (in_Mat m i j) eqn:Hin; [|easy]. cbn.
  apply in_Mat_true in Hin, Hin'.
  rewrite list_lookup_insert_ne; [easy|].
  intros Heq. apply Hne.
  assert (i = i') by nia. subst i'. f_equal. nia.
Qed.

Lemma Mat_set_set (m : Mat A) i j v v' :
  Mat_set (Mat_set m i j v) i j v' = Mat_set m i j v'.
Proof.
  unfold Mat_set at 1. rewrite Mat_set_in.
  unfold Mat_set. destruct (in_Mat m i j); [|easy]. cbn.
  now rewrite list_insert_insert_eq.
Qed.

Lemma zeros_wf (h w : nat) : Mat_wf (zeros h w : Mat A).
Proof. unfold Mat_wf, zeros. cbn. apply length_replicate. Qed.

Lemma Mat_at_zeros (h w i j : nat) : Mat_at (zeros h w : Mat A) i j = px_zero.
Proof.
  unfold Mat_at. destruct (in_Mat _ i j) eqn:Hin; [|easy].
  apply in_Mat_true in Hin. cbn in *.
  rewrite lookup_replicate_2; [easy|nia].
Qed.

Lemma flat_rows_length (f : nat -> nat -> A) (w h a : nat) :
  length (flat_map (fun i => List.map (f i) (seq 0 w)) (seq a h)) = (h * w)%nat.
Proof.
  revert a. induction h as [|h IH]; intros a; cbn; [easy|].
  now rewrite length_app, length_map, length_seq, IH.
Qed.

Lemma flat_rows_lookup (f : nat -> nat -> A) (w h a i j : nat) :
  (i < h)%nat -> (j < w)%nat ->
  flat_map (fun i => List.map (f i) (seq 0 w)) (seq a h) !! (i * w + j)%nat
  = Some (f (a + i)%nat j).
Proof.
  revert a i. induction h as [|h IH]; intros a i Hi Hj; [lia|].
  cbn [seq flat_map]. destruct i as [|i].
  - rewrite lookup_app_l by (rewrite length_map, length_seq; lia).
    cbn. rewrite list_lookup_fmap, lookup_seq_lt by lia.
    cbn. now rewrite Nat.add_0_r.
  - rewrite lookup_app_r by (rewrite length_map, length_seq; nia).
    rewrite length_map, length_seq.
    replace (S i * w + j - w)%nat with (i * w + j)%nat by nia.
    rewrite IH by lia. f_equal. f_equal. lia.
Qed.

Lemma Mat_build_wf (h w : nat) (f : nat -> nat -> A) : Mat_wf (Mat_build h w f).
Proof. unfold Mat_wf, Mat_build. cbn. apply flat_rows_length. Qed.

Lemma Mat_build_at (h w : nat) (f : nat -> nat -> A) (i j : nat) :
  (i < h)%nat -> (j < w)%nat -> Mat_at (Mat_build h w f) i j = f i j.
Proof.
  intros Hi Hj. unfold Mat_at.
  replace (in_Mat (Mat_build h w f) i j) with true
    by (symmetry; apply in_Mat_true; cbn; lia).
  cbn. now rewrite flat_rows_lookup.
Qed.

(** A matrix is determined by its size and its elements. *)
Lemma Mat_ext (m m' : Mat A) :
  Mat_wf m -> Mat_wf m' -> rows m = rows m' -> cols m = cols m' ->
  (forall i j, (i < rows m)%nat -> (j < cols m)%nat -> Mat_at m i j = Mat_at m' i j) ->
  m = m'.
Proof.
  destruct m as [r c d], m' as [r' c' d']. unfold Mat_wf. cbn.
  intros Hd Hd' <- <- Hat. f_equal.
  apply list_eq_same_length with (r * c)%nat; [easy|easy|].
  intros k x y Hk Hx Hy.
  assert (Hc : (0 < c)%nat) by nia.
  assert (Hq : (k / c < r)%nat) by (apply Nat.Div0.div_lt_upper_bound; lia).
  assert (Hr : (k mod c < c)%nat) by (apply Nat.mod_upper_bound; lia).
  specialize (Hat (k / c)%nat (k mod c)%nat Hq Hr).
  unfold Mat_at in Hat.
  rewrite !(proj2 (in_Mat_true _ _ _)) in Hat by (cbn [rows cols]; lia).
  cbn [data cols] in Hat.
  replace (k / c * c + k mod c)%nat with k in Hat
    by (rewrite (Nat.div_mod_eq k c) at 1; lia).
  rewrite Hx, Hy in Hat. exact Hat.
Qed.

(** *** Loops over the pixels of a matrix *)

Lemma for_loop_S {S : Type} (n : nat) (body : nat -> S -> S) (s : S) :
  for_loop (Datatypes.S n) body s = body n (for_loop n body s).
Proof. unfold for_loop. now rewrite seq_S, foldl_app. Qed.

Lemma Mat_upd_wf (m : Mat A) i j o : Mat_wf m -> Mat_wf (Mat_upd m i j o).
Proof. destruct o; cbn; [apply Mat_set_wf|easy]. Qed.

Lemma Mat_upd_rows (m : Mat A) i j o : rows (Mat_upd m i j o) = rows m.
Proof. destruct o; cbn; [apply Mat_set_rows|easy]. Qed.

Lemma Mat_upd_cols (m : Mat A) i j o : cols (Mat_upd m i j o) = cols m.
Proof. destruct o; cbn; [apply Mat_set_cols|easy]. Qed.

Section PixelLoops.

Variable g : nat -> nat -> option A.
Variable body : nat -> nat -> Mat A -> Mat A.
Hypothesis body_upd :
  forall i j m, Mat_wf m -> body i j m = Mat_upd m i j (g i j).

Lemma row_loop (i w : nat) (m : Mat A) :
  Mat_wf m ->
  let r := for_loop w (fun j => body i j) m in
  Mat_wf r /\ rows r = rows m /\ cols r = cols m /\
  forall i' j', in_Mat m i' j' = true ->
    Mat_at r i' j'
    = visited_value g (fun i' j' => (i' =? i)%nat && (j' <? w)%nat) m i' j'.
Proof.
  intros Hwf. induction w as [|w IH].
  - cbn. repeat split; try easy. intros i' j' _.
    unfold visited_value. now rewrite andb_false_r.
  - rewrite for_loop_S. cbn zeta in *.
    destruct IH as (IHwf & IHr & IHc & IHat).
    rewrite body_upd by easy.
    split; [now apply Mat_upd_wf|].
    split; [now rewrite Mat_upd_rows|].
    split; [now rewrite Mat_upd_cols|].
    intros i' j' Hin. unfold visited_value.
    destruct (Nat.eqb_spec i' i) as [->|Hi]; cbn [andb].
    + destruct (Nat.eq_dec j' w) as [->|Hj].
      * replace (w <? Datatypes.S w)%nat with true by (symmetry; apply Nat.ltb_lt; lia).
        destruct (g i w) as [v|] eqn:Hg; cbn.
        -- apply Mat_at_set_eq; [easy|].
           unfold in_Mat in *. now rewrite IHr, IHc.
        -- rewrite IHat by easy. unfold visited_value.
           rewrite Nat.eqb_refl, Nat.ltb_irrefl. easy.
      * assert (Hne : (i, w) <> (i, j')) by congruence.
        transitivity (Mat_at (for_loop w (fun j => body i j) m) i j').
        { destruct (g i w); cbn; [now apply Mat_at_set_ne|easy]. }
        rewrite IHat by easy. unfold visited_value.
        rewrite Nat.eqb_refl. cbn [andb].
        destruct (Nat.ltb_spec j' w), (Nat.ltb_spec j' (Datatypes.S w)); try lia; easy.
    + assert (Hne : (i, w) <> (i', j')) by congruence.
      transitivity (Mat_at (for_loop w (fun j => body i j) m) i' j').
      { destruct (g i w); cbn; [now apply Mat_at_set_ne|easy]. }
      rewrite IHat by easy. unfold visited_value.
      destruct (Nat.eqb_spec i' i); [lia|easy].
Qed.

Lemma pixel_loops (h w : nat) (m : Mat A) :
  Mat_wf m ->
  let r := for_loop h (fun i => for_loop w (fun j => body i j)) m in
  Mat_wf r /\ rows r = rows m /\ cols r = cols m /\
  forall i' j', in_Mat m i' j' = true ->
    Mat_at r i' j'
    = visited_value g (fun i' j' => (i' <? h)%nat && (j' <? w)%nat) m i' j'.
Proof.
  intros Hwf. induction h as [|h IH].
  - cbn. repeat split; try easy.
  - rewrite for_loop_S. cbn zeta in *.
    destruct IH as (IHwf & IHr & IHc & IHat).
    destruct (row_loop h w _ IHwf) as (Rwf & Rr & Rc & Rat).
    split; [easy|]. split; [congruence|]. split; [congruence|].
    intros i' j' Hin.
    assert (Hin' : in_Mat (for_loop h (fun i => for_loop w (fun j => body i j)) m) i' j' = true)
      by (unfold in_Mat in *; now rewrite IHr, IHc).
    rewrite Rat by easy. unfold visited_value.
    rewrite IHat by easy. unfold visited_value.
    destruct (Nat.eqb_spec i' h) as [->|Hi]; cbn [andb].
    + rewrite Nat.ltb_irrefl. cbn [andb].
      replace (h <? Datatypes.S h)%nat with true by (symmetry; apply Nat.ltb_lt; lia).
      cbn [andb]. easy.
    + destruct (Nat.ltb_spec i' h), (Nat.ltb_spec i' (Datatypes.S h)); try lia; easy.
Qed.

End PixelLoops.

End MatFacts.

(** ** The fusion step *)

Section FusionFacts.
Import Cv Visualizer.

Lemma Mat_set_outside {A : Type} (m : Mat A) i j v :
  in_Mat m i j = false -> Mat_set m i j v = m.
Proof. intros Hout. unfold Mat_set. now rewrite Hout. Qed.

Lemma fusion_body_upd (color : Mat Vec3b) (depth : Mat Z) i j m :
  Mat_wf m ->
  fusion_body color depth i j m
  = Mat_upd m i j (Some (fused_pixel (Mat_at color i j) (Mat_at depth i j))).
Proof.
  intros Hwf. unfold fusion_body, fused_pixel. cbn [Mat_upd].
  destruct (out_of_range (Mat_at depth i j)); [easy|].
  destruct (in_Mat m i j) eqn:Hin.
  - now rewrite Mat_at_set_eq, Mat_set_set.
  - rewrite !Mat_set_outside; try easy.
    now rewrite Mat_set_outside.
Qed.

Lemma fusion_at (color : Mat Vec3b) (depth : Mat Z) (m : Mat Vec3b) i j :
  Mat_wf m -> in_Mat m i j = true -> in_Mat depth i j = true ->
  Mat_at (fusion color depth m) i j
  = fused_pixel (Mat_at color i j) (Mat_at depth i j).
Proof.
  intros Hwf Hin Hd. unfold fusion.
  destruct (pixel_loops
              (fun i j => Some (fused_pixel (Mat_at color i j) (Mat_at depth i j)))
              (fun i j => fusion_body color depth i j)
              (fusion_body_upd color depth)
              (rows depth) (cols depth) m Hwf) as (_ & _ & _ & Hat).
  rewrite Hat by easy. unfold visited_value.
  unfold in_Mat in Hd. now rewrite Hd.
Qed.

(** The [float] comparisons agree with the integer ones on every 16-bit
    depth, and the [float] boost is the integer quotient. *)
Lemma out_of_range_spec (d : Z) :
  is_ushort d -> out_of_range d = (d <=? 300) || (6000 <=? d).
Proof.
  intros Hd. apply eqb_prop.
  apply (Zrange_forallb
           (fun d => eqb (out_of_range d) ((d <=? 300) || (6000 <=? d)))
           0 (Z.to_nat 65536)).
  - vm_compute. reflexivity.
  - unfold is_ushort in Hd. lia.
Qed.

Lemma depthColor_spec (d : Z) :
  300 < d < 6000 -> depthColor d = (6000 - d) / 150.
Proof.
  intros Hd. apply Z.eqb_eq.
  apply (Zrange_forallb (fun d => depthColor d =? (6000 - d) / 150)
           301 (Z.to_nat 5699)).
  - vm_compute. reflexivity.
  - lia.
Qed.

Lemma resize_nearest_size {A : Type} `{Pixel A} (img : Mat A) (w h : nat) fx fy :
  (0 < w)%nat -> (0 < h)%nat ->
  rows (resize_nearest img (w, h) fx fy) = h /\
  cols (resize_nearest img (w, h) fx fy) = w.
Proof.
  intros Hw Hh. unfold resize_nearest. cbn [fst snd].
  destruct (Nat.eqb_spec w 0); [lia|].
  destruct (Nat.eqb_spec h 0); [lia|]. cbn. easy.
Qed.

Lemma resizeImg_size {A : Type} `{Pixel A} (img : Mat A) (w h : nat) :
  (0 < w)%nat -> (0 < h)%nat ->
  rows (resizeImg img w h) = h /\ cols (resizeImg img w h) = w.
Proof.
  intros Hw Hh. unfold resizeImg.
  destruct (Nat.eqb_spec (cols img) w) as [Hc|Hc];
    destruct (Nat.eqb_spec (rows img) h) as [Hr|Hr]; cbn [negb orb];
    try (now apply resize_nearest_size).
  easy.
Qed.

Section Process.

Variables Point3 Intrinsics : Type.
Variable project3dPointTo2d :
  Point3 -> CameraParams Intrinsics -> option (Z * Z * Z).

Local Abbreviation process := (process project3dPointTo2d).
Local Abbreviation aligned_depth := (aligned_depth project3dPointTo2d).

Lemma aligned_depth_size (v : DataVisualizer Intrinsics) (frame : Frame Point3) :
  (0 < align_w v)%nat -> (0 < align_h v)%nat ->
  rows (aligned_depth v frame) = align_h v /\
  cols (aligned_depth v frame) = align_w v.
Proof.
  intros Hw Hh. unfold Visualizer.aligned_depth.
  destruct (negb (Mat_empty (depth frame))); now apply resizeImg_size.
Qed.

(** Every pixel of the image shown is the loop body's result on the
    aligned colour and depth at that pixel. *)
Lemma shown_at (v : DataVisualizer Intrinsics) (frame : Frame Point3) (i j : nat) :
  (i < align_h v)%nat -> (j < align_w v)%nat ->
  Mat_at (shown (process v frame)) i j
  = fused_pixel (Mat_at (aligned_color v frame) i j)
                (Mat_at (aligned_depth v frame) i j).
Proof.
  intros Hi Hj. unfold Visualizer.process. cbn [shown].
  destruct (aligned_depth_size v frame) as [Hr Hc]; try lia.
  apply fusion_at.
  - apply zeros_wf.
  - apply in_Mat_true. cbn. lia.
  - apply in_Mat_true. unfold aligned_depth in *. lia.
Qed.

(** The green channel of an in-range pixel, in integers. *)
Lemma fused_green (c : Vec3b) (d : Z) :
  Vec3b_ok c -> 300 < d < 6000 ->
  Vec_get (fused_pixel c d) 1 = Z.min (Vec_get c 1 + (6000 - d) / 150) 255.
Proof.
  intros (_ & Hg & _) Hd. unfold fused_pixel.
  rewrite out_of_range_spec by (unfold is_ushort; lia).
  destruct (Z.leb_spec d 300); [lia|].
  destruct (Z.leb_spec 6000 d); [lia|]. cbn [orb].
  rewrite depthColor_spec by easy. cbn [Vec_set Vec_get val1].
  unfold uchar, is_uchar in *.
  assert (0 <= (6000 - d) / 150) by (apply Z.div_pos; lia).
  apply Z.mod_small. lia.
Qed.

Lemma fused_out_of_range (c : Vec3b) (d : Z) :
  is_ushort d -> d <= 300 \/ 6000 <= d -> fused_pixel c d = c.
Proof.
  intros Hu Hd. unfold fused_pixel. rewrite out_of_range_spec by easy.
  destruct (Z.leb_spec d 300), (Z.leb_spec 6000 d); cbn [orb]; try easy; lia.
Qed.

Lemma Qfloor_exact_boost (d : Z) : Qfloor (exact_boost d) = (6000 - d) / 150.
Proof.
  unfold exact_boost.
  assert (E : (40 - inject_Z d * 40 / 6000 == (40 * (6000 - d)) # 6000)%Q).
  { unfold Qeq, Qminus, Qplus, Qopp, Qdiv, Qmult, Qinv, inject_Z. cbn. lia. }
  rewrite (Qfloor_comp _ _ E). cbn [Qfloor].
  change (Z.pos 6000) with (40 * 150).
  apply Z.div_mul_cancel_l; lia.
Qed.

(** C1, as amended: in the image [process] shows, a pixel whose aligned
    depth [d] lies strictly between 300 and 6000 has the green channel
    [min (g + floor (40 - d * 40 / 6000), 255)], where [g] is the green
    channel of the aligned colour pixel: the boost is the exact value
    [40 - d * 40 / 6000] cut down to an integer, not rounded to the nearest
    one. *)
Theorem fusion_green_truncates
    (v : DataVisualizer Intrinsics) (frame : Frame Point3) (i j : nat) :
  (i < align_h v)%nat -> (j < align_w v)%nat ->
  Vec3b_ok (Mat_at (aligned_color v frame) i j) ->
  300 < Mat_at (aligned_depth v frame) i j < 6000 ->
  Vec_get (Mat_at (shown (process v frame)) i j) 1
  = Z.min (Vec_get (Mat_at (aligned_color v frame) i j) 1
           + Qfloor (exact_boost (Mat_at (aligned_depth v frame) i j)))
          255.
Proof.
  intros Hi Hj Hc Hd.
  rewrite shown_at, fused_green, Qfloor_exact_boost by easy. easy.
Qed.

(** C2: a pixel whose aligned depth is at most 300 or at least 6000 (0
    included) is shown exactly as the aligned colour pixel, in all three
    channels. *)
Theorem fusion_out_of_range_unchanged
    (v : DataVisualizer Intrinsics) (frame : Frame Point3) (i j : nat) :
  (i < align_h v)%nat -> (j < align_w v)%nat ->
  is_ushort (Mat_at (aligned_depth v frame) i j) ->
  Mat_at (aligned_depth v frame) i j <= 300
  \/ Mat_at (aligned_depth v frame) i j >= 6000 ->
  Mat_at (shown (process v frame)) i j = Mat_at (aligned_color v frame) i j.
Proof.
  intros Hi Hj Hu Hd. rewrite shown_at by easy.
  apply fused_out_of_range; [easy|lia].
Qed.

(** C9: with the aligned colour pixel held fixed, the green channel shown
    does not increase when the aligned depth grows within the open
    interval from 300 to 6000. *)
Theorem fusion_green_monotone
    (v : DataVisualizer Intrinsics) (frame frame' : Frame Point3) (i j : nat) :
  (i < align_h v)%nat -> (j < align_w v)%nat ->
  Mat_at (aligned_color v frame') i j = Mat_at (aligned_color v frame) i j ->
  Vec3b_ok (Mat_at (aligned_color v frame) i j) ->
  300 < Mat_at (aligned_depth v frame) i j ->
  Mat_at (aligned_depth v frame) i j <= Mat_at (aligned_depth v frame') i j ->
  Mat_at (aligned_depth v frame') i j < 6000 ->
  Vec_get (Mat_at (shown (process v frame')) i j) 1
  <= Vec_get (Mat_at (shown (process v frame)) i j) 1.
Proof.
  intros Hi Hj Hcc Hc Hlo Hle Hhi.
  rewrite !shown_at by easy. rewrite Hcc.
  rewrite !fused_green by (easy || lia).
  apply Z.min_le_compat_r, Z.add_le_mono_l.
  apply Z.div_le_mono; lia.
Qed.

(** C10: whatever the aligned depth, the first and the last channel of a
    pixel shown are those of the aligned colour pixel, and its green
    channel is not below the aligned colour's. *)
Theorem fusion_touches_green_only
    (v : DataVisualizer Intrinsics) (frame : Frame Point3) (i j : nat) :
  (i < align_h v)%nat -> (j < align_w v)%nat ->
  Vec3b_ok (Mat_at (aligned_color v frame) i j) ->
  is_ushort (Mat_at (aligned_depth v frame) i j) ->
  Vec_get (Mat_at (shown (process v frame)) i j) 0
  = Vec_get (Mat_at (aligned_color v frame) i j) 0 /\
  Vec_get (Mat_at (shown (process v frame)) i j) 2
  = Vec_get (Mat_at (aligned_color v frame) i j) 2 /\
  Vec_get (Mat_at (aligned_color v frame) i j) 1
  <= Vec_get (Mat_at (shown (process v frame)) i j) 1.
Proof.
  intros Hi Hj Hc Hu. rewrite shown_at by easy.
  set (c := Mat_at (aligned_color v frame) i j) in *.
  set (d := Mat_at (aligned_depth v frame) i j) in *.
  destruct (Z_le_gt_dec d 300) as [Hlo|Hlo];
    [rewrite fused_out_of_range by (easy || lia); lia|].
  destruct (Z_le_gt_dec 6000 d) as [Hhi|Hhi];
    [rewrite fused_out_of_range by (easy || lia); lia|].
  rewrite fused_green by (easy || lia).
  split; [|split].
  - unfold fused_pixel. now destruct (out_of_range d).
  - unfold fused_pixel. now destruct (out_of_range d).
  - destruct Hc as (_ & Hg & _). unfold is_uchar in Hg. cbn [Vec_get] in *.
    assert (0 <= (6000 - d) / 150) by (apply Z.div_pos; lia). lia.
Qed.

End Process.

End FusionFacts.

(** ** Synthesis of the depth grid from the cloud *)

Section SynthesisFacts.
Import Cv Visualizer.

Variables Point3 Intrinsics : Type.
Variable project3dPointTo2d :
  Point3 -> CameraParams Intrinsics -> option (Z * Z * Z).

Local Abbreviation synthesize := (synthesize project3dPointTo2d).
Local Abbreviation project_store := (project_store project3dPointTo2d).
Local Abbreviation aligned_depth := (aligned_depth project3dPointTo2d).
Local Abbreviation hits := (hits project3dPointTo2d).

Lemma store_int_wf (m : Mat Z) iImg jImg d :
  Mat_wf m -> Mat_wf (store_int m iImg jImg d).
Proof.
  intros Hwf. unfold store_int.
  destruct ((0 <=? iImg) && (0 <=? jImg)); [now apply Mat_set_wf|easy].
Qed.

Lemma store_int_size (m : Mat Z) iImg jImg d :
  rows (store_int m iImg jImg d) = rows m /\
  cols (store_int m iImg jImg d) = cols m.
Proof.
  unfold store_int.
  destruct ((0 <=? iImg) && (0 <=? jImg)); [|easy].
  now rewrite Mat_set_rows, Mat_set_cols.
Qed.

Lemma store_int_at (m : Mat Z) (i j : nat) d :
  Mat_wf m -> in_Mat m i j = true ->
  Mat_at (store_int m (Z.of_nat i) (Z.of_nat j) d) i j = d.
Proof.
  intros Hwf Hin. unfold store_int.
  destruct (Z.leb_spec 0 (Z.of_nat i)); [|lia].
  destruct (Z.leb_spec 0 (Z.of_nat j)); [|lia]. cbn [andb].
  rewrite !Nat2Z.id. now apply Mat_at_set_eq.
Qed.

Lemma store_int_elsewhere (m : Mat Z) iImg jImg d (i j : nat) :
  (iImg =? Z.of_nat i) && (jImg =? Z.of_nat j) = false ->
  Mat_at (store_int m iImg jImg d) i j = Mat_at m i j.
Proof.
  intros Hne. unfold store_int.
  destruct (Z.leb_spec 0 iImg); [|easy].
  destruct (Z.leb_spec 0 jImg); [|easy]. cbn [andb].
  apply Mat_at_set_ne. intros [= Hi Hj].
  apply andb_false_iff in Hne. destruct Hne as [Hne|Hne];
    apply Z.eqb_neq in Hne; lia.
Qed.

Lemma project_store_wf cam (m : Mat Z) p :
  Mat_wf m -> Mat_wf (project_store cam m p).
Proof.
  intros Hwf. unfold Visualizer.project_store.
  destruct (project3dPointTo2d p cam) as [[[iImg jImg] d]|]; [|easy].
  now apply store_int_wf.
Qed.

Lemma project_store_size cam (m : Mat Z) p :
  rows (project_store cam m p) = rows m /\ cols (project_store cam m p) = cols m.
Proof.
  unfold Visualizer.project_store.
  destruct (project3dPointTo2d p cam) as [[[iImg jImg] d]|]; [|easy].
  apply store_int_size.
Qed.

(** A point without a valid projection leaves the grid as it is. *)
Lemma project_store_none cam (m : Mat Z) p :
  project3dPointTo2d p cam = None -> project_store cam m p = m.
Proof. intros Hp. unfold Visualizer.project_store. now rewrite Hp. Qed.

(** A point with a valid projection writes its distance at its pixel and
    nothing anywhere else. *)
Lemma project_store_some cam (m : Mat Z) p (i j : nat) d :
  Mat_wf m -> in_Mat m i j = true ->
  project3dPointTo2d p cam = Some (Z.of_nat i, Z.of_nat j, d) ->
  Mat_at (project_store cam m p) i j = d /\
  forall i' j', (i', j') <> (i, j) ->
    Mat_at (project_store cam m p) i' j' = Mat_at m i' j'.
Proof.
  intros Hwf Hin Hp. unfold Visualizer.project_store. rewrite Hp. split.
  - now apply store_int_at.
  - intros i' j' Hne. apply store_int_elsewhere.
    apply andb_false_iff.
    destruct (Nat.eq_dec i i') as [<-|Hi].
    + right. apply Z.eqb_neq. intros Hj. apply Hne. f_equal. lia.
    + left. apply Z.eqb_neq. lia.
Qed.

Lemma synthesize_snoc cam cloud p :
  synthesize cam (cloud ++ [p]) = project_store cam (synthesize cam cloud) p.
Proof. unfold Visualizer.synthesize. now rewrite foldl_app. Qed.

Lemma synthesize_inv cam cloud :
  Mat_wf (synthesize cam cloud) /\
  rows (synthesize cam cloud) = cam_h cam /\
  cols (synthesize cam cloud) = cam_w cam /\
  forall i j, (i < cam_h cam)%nat -> (j < cam_w cam)%nat ->
    Mat_at (synthesize cam cloud) i j
    = default 0 (last (omap (hits cam i j) cloud)).
Proof.
  induction cloud as [|p cloud IH] using rev_ind.
  - unfold Visualizer.synthesize. cbn [foldl].
    split; [apply zeros_wf|]. split; [easy|]. split; [easy|].
    intros i j _ _. now rewrite Mat_at_zeros.
  - destruct IH as (IHwf & IHr & IHc & IHat).
    rewrite synthesize_snoc.
    destruct (project_store_size cam (synthesize cam cloud) p) as [Hr Hc].
    split; [now apply project_store_wf|].
    split; [congruence|]. split; [congruence|].
    intros i j Hi Hj. rewrite omap_app.
    change (omap (hits cam i j) [p])
      with (match hits cam i j p with Some d => [d] | None => [] end).
    unfold Visualizer.project_store, Visualizer.hits at 2.
    destruct (project3dPointTo2d p cam) as [[[iImg jImg] d]|];
      [|rewrite app_nil_r; now apply IHat].
    destruct ((iImg =? Z.of_nat i) && (jImg =? Z.of_nat j)) eqn:Hhit.
    + apply andb_true_iff in Hhit. destruct Hhit as [Hi' Hj'].
      apply Z.eqb_eq in Hi', Hj'. subst iImg jImg.
      rewrite last_snoc. cbn [default].
      apply store_int_at; [easy|]. apply in_Mat_true. lia.
    + rewrite app_nil_r, store_int_elsewhere by easy. now apply IHat.
Qed.

(** C3: with an empty [frame.depth] the aligned depth is the resized
    synthesized grid; that grid has the depth stream's native size, and
    each of its pixels holds the distance of the last cloud point whose
    valid projection is that pixel, or 0 when no point projects there.
    Points without a valid projection play no part. *)
Theorem synthesized_depth_grid
    (v : DataVisualizer Intrinsics) (frame : Frame Point3) :
  Mat_empty (depth frame) = true ->
  let cam := depthCamera v in
  let grid := synthesize cam (cloud frame) in
  aligned_depth v frame = resizeImg grid (align_w v) (align_h v) /\
  synthesize cam [] = zeros (cam_h cam) (cam_w cam) /\
  rows grid = cam_h cam /\ cols grid = cam_w cam /\
  (forall i j, (i < cam_h cam)%nat -> (j < cam_w cam)%nat ->
     Mat_at grid i j = default 0 (last (omap (hits cam i j) (cloud frame)))) /\
  (forall cloud p, project3dPointTo2d p cam = None ->
     synthesize cam (cloud ++ [p]) = synthesize cam cloud) /\
  (forall cloud p i j d, (i < cam_h cam)%nat -> (j < cam_w cam)%nat ->
     project3dPointTo2d p cam = Some (Z.of_nat i, Z.of_nat j, d) ->
     Mat_at (synthesize cam (cloud ++ [p])) i j = d /\
     forall i' j', (i', j') <> (i, j) ->
       Mat_at (synthesize cam (cloud ++ [p])) i' j'
       = Mat_at (synthesize cam cloud) i' j').
Proof.
  intros Hempty cam grid.
  destruct (synthesize_inv cam (cloud frame)) as (_ & Hr & Hc & Hat).
  split; [|split; [|split; [|split; [|split; [|split]]]]]; try easy.
  - unfold Visualizer.aligned_depth. now rewrite Hempty.
  - intros cloud p Hp. rewrite synthesize_snoc. now apply project_store_none.
  - intros cloud p i j d Hi Hj Hp. rewrite synthesize_snoc.
    destruct (synthesize_inv cam cloud) as (Hwf & Hr' & Hc' & _).
    apply project_store_some; try easy.
    apply in_Mat_true. lia.
Qed.

End SynthesisFacts.

(** ** The recorded false-colour image *)

Section RecordingFacts.
Import Cv Visualizer.

Lemma finalColor_near_lerp (d : Z) (k : nat) :
  dMin <= d <= dMax -> (k < 3)%nat ->
  (Qabs (inject_Z (Vec_get (finalColor d) k) - lerp_exact d k) <= 1 # 2)%Q.
Proof.
  intros Hd Hk.
  assert (Hall : near_lerp d = true).
  { apply (Zrange_forallb near_lerp 800 (Z.to_nat 1701)).
    - vm_compute. reflexivity.
    - unfold dMin, dMax in Hd. lia. }
  unfold near_lerp in Hall. rewrite forallb_forall in Hall.
  apply Qle_bool_iff, Hall.
  destruct k as [|[|[|k]]]; cbn; try tauto. lia.
Qed.

Lemma pretty_body_upd (depth : Mat Z) i j (m : Mat Vec3b) :
  Mat_wf m ->
  pretty_body depth i j m
  = Mat_upd m i j
      (if Mat_at depth i j =? 0 then None
       else Some (finalColor (Z.min (Z.max (Mat_at depth i j) dMin) dMax))).
Proof.
  intros _. unfold pretty_body.
  now destruct (Mat_at depth i j =? 0).
Qed.

Lemma depthPretty_inv (depth : Mat Z) :
  Mat_wf (depthPretty depth) /\
  rows (depthPretty depth) = rows depth /\
  cols (depthPretty depth) = cols depth /\
  forall i j, (i < rows depth)%nat -> (j < cols depth)%nat ->
    Mat_at (depthPretty depth) i j
    = if Mat_at depth i j =? 0 then mkVec3b 0 0 0
      else finalColor (Z.min (Z.max (Mat_at depth i j) dMin) dMax).
Proof.
  unfold depthPretty.
  destruct (pixel_loops _ _ (pretty_body_upd depth)
              (rows depth) (cols depth)
              (zeros (rows depth) (cols depth)) (zeros_wf _ _))
    as (Hwf & Hr & Hc & Hat).
  split; [easy|]. split; [easy|]. split; [easy|].
  intros i j Hi Hj. rewrite Hat by (apply in_Mat_true; cbn; lia).
  unfold visited_value.
  destruct (Nat.ltb_spec i (rows depth)); [|lia].
  destruct (Nat.ltb_spec j (cols depth)); [|lia]. cbn [andb].
  rewrite Mat_at_zeros.
  now destruct (Mat_at depth i j =? 0).
Qed.

Lemma Qround_even_scale_1 (z : Z) : Qround_even (inject_Z z * 1) = z.
Proof.
  unfold Qround_even.
  assert (Hf : Qfloor (inject_Z z * 1) = z).
  { unfold Qmult, inject_Z, Qfloor. cbn.
    now rewrite Z.mul_1_r, Z.div_1_r. }
  rewrite Hf.
  assert (Hlt : (inject_Z z * 1 - inject_Z z < 1 # 2)%Q).
  { unfold Qlt, Qminus, Qplus, Qopp, Qmult, inject_Z. cbn. lia. }
  assert (Hc : Qcompare (inject_Z z * 1 - inject_Z z) (1 # 2) = Lt)
    by (apply Qlt_alt; exact Hlt).
  now rewrite Hc.
Qed.

Lemma Qfloor_scale_1 (z : Z) : Qfloor (inject_Z z * / 1) = z.
Proof.
  unfold Qmult, Qinv, inject_Z, Qfloor. cbn.
  now rewrite Z.mul_1_r, Z.div_1_r.
Qed.

(** A resize by the factors 1 and 1 gives the image back. *)
Lemma resize_nearest_scale_1 {A : Type} `{Pixel A} (m : Mat A) :
  Mat_wf m -> resize_nearest m (0, 0)%nat 1 1 = m.
Proof.
  intros Hwf. unfold resize_nearest. cbn [fst snd Nat.eqb orb].
  rewrite !Qround_even_scale_1, !Nat2Z.id.
  apply Mat_ext; try easy.
  - apply Mat_build_wf.
  - intros i j Hi Hj. cbn [rows cols Mat_build] in Hi, Hj.
    rewrite Mat_build_at by easy.
    rewrite !Qfloor_scale_1, !Nat2Z.id.
    f_equal; lia.
Qed.

Section Recording.

Variables Point3 Intrinsics : Type.
Variable project3dPointTo2d :
  Point3 -> CameraParams Intrinsics -> option (Z * Z * Z).

Local Abbreviation process := (process project3dPointTo2d).
Local Abbreviation aligned_depth := (aligned_depth project3dPointTo2d).

Lemma written_image (v : DataVisualizer Intrinsics) (frame : Frame Point3) :
  written (process v frame)
  = if saveToDisk v
    then Some (file_name (numFrames v), depthPretty (aligned_depth v frame))
    else None.
Proof.
  unfold Visualizer.process. cbn [written].
  destruct (saveToDisk v); [|easy].
  rewrite resize_nearest_scale_1; [easy|].
  apply depthPretty_inv.
Qed.

(** C4, as amended: with recording enabled, the image written is the
    false-colour image passed through a resize by the factors 1 and 1; it
    has the resolution of the aligned depth grid, neither more nor less,
    and the same pixels as the false-colour image. *)
Theorem recorded_image_not_upsampled
    (v : DataVisualizer Intrinsics) (frame : Frame Point3) :
  saveToDisk v = true ->
  exists s img,
    written (process v frame) = Some (s, img) /\
    img = depthPretty (aligned_depth v frame) /\
    rows img = rows (aligned_depth v frame) /\
    cols img = cols (aligned_depth v frame).
Proof.
  intros Hsave. rewrite written_image, Hsave.
  destruct (depthPretty_inv (aligned_depth v frame)) as (_ & Hr & Hc & _).
  eexists _, _. split; [reflexivity|]. easy.
Qed.

(** C5: with recording enabled, the image written holds, at every pixel
    of the aligned depth grid, black where the depth is 0 and otherwise
    the colour of the depth clamped into [800, 2500]: each channel is the
    linear interpolation between the near colour [close] and the far
    colour [far] at that clamped depth, to the nearest 8-bit value. *)
Theorem false_colour_per_pixel
    (v : DataVisualizer Intrinsics) (frame : Frame Point3) :
  saveToDisk v = true ->
  exists s img,
    written (process v frame) = Some (s, img) /\
    forall i j,
      (i < rows (aligned_depth v frame))%nat ->
      (j < cols (aligned_depth v frame))%nat ->
      let d := Mat_at (aligned_depth v frame) i j in
      let d' := Z.min (Z.max d 800) 2500 in
      (d = 0 -> Mat_at img i j = mkVec3b 0 0 0) /\
      (d <> 0 ->
         800 <= d' <= 2500 /\
         forall k, (k < 3)%nat ->
           (Qabs (inject_Z (Vec_get (Mat_at img i j) k) - lerp_exact d' k)
            <= 1 # 2)%Q).
Proof.
  intros Hsave. rewrite written_image, Hsave.
  destruct (depthPretty_inv (aligned_depth v frame)) as (_ & _ & _ & Hat).
  eexists _, _. split; [reflexivity|].
  intros i j Hi Hj d d'. rewrite Hat by easy. fold d. split.
  - intros ->. easy.
  - intros Hd. destruct (Z.eqb_spec d 0); [easy|].
    split; [lia|]. intros k Hk.
    apply finalColor_near_lerp; [|easy].
    unfold dMin, dMax. lia.
Qed.

End Recording.

End RecordingFacts.

(** ** The frame counter and the names of the recorded files *)

Section FmtFacts.
Import Fmt.

Lemma digit_code (a : Z) :
  0 <= a < 10 -> nat_of_ascii (digit a) = (48 + Z.to_nat a)%nat.
Proof.
  intros Ha. unfold digit. apply nat_ascii_embedding. lia.
Qed.

Lemma digit_val_digit (a : Z) : 0 <= a < 10 -> digit_val (digit a) = a.
Proof. intros Ha. unfold digit_val. rewrite digit_code by easy. lia. Qed.

Lemma is_digit_digit (a : Z) : 0 <= a < 10 -> is_digit (digit a) = true.
Proof.
  intros Ha. unfold is_digit. rewrite digit_code by easy.
  apply andb_true_iff. split; apply Nat.leb_le; lia.
Qed.

Lemma digit_compare (a b : Z) :
  0 <= a < 10 -> 0 <= b < 10 -> a < b ->
  Ascii.compare (digit a) (digit b) = Lt.
Proof.
  intros Ha Hb Hab. unfold Ascii.compare.
  rewrite <- (N2Nat.id (N_of_ascii (digit a))), <- (N2Nat.id (N_of_ascii (digit b))).
  change (N.to_nat (N_of_ascii ?c)) with (nat_of_ascii c).
  rewrite !digit_code by easy. apply N.compare_lt_iff. lia.
Qed.

Lemma fixed_length (k : nat) : forall n, length (fixed k n) = k.
Proof.
  induction k as [|k IH]; intros n; cbn [fixed]; [easy|].
  rewrite length_app, IH. cbn. lia.
Qed.

Lemma fixed_digits (k : nat) : forall n,
  Forall (fun c => is_digit c = true) (fixed k n).
Proof.
  induction k as [|k IH]; intros n; cbn [fixed]; [constructor|].
  apply Forall_app. split; [apply IH|].
  constructor; [|constructor].
  apply is_digit_digit, Z.mod_pos_bound. lia.
Qed.

Lemma fixed_zero (k : nat) : fixed k 0 = replicate k "0"%char.
Proof.
  induction k as [|k IH]; cbn [fixed]; [easy|].
  change (0 / 10) with 0. rewrite IH. now rewrite replicate_S_end.
Qed.

Lemma fixed_small (k : nat) (n : Z) :
  0 <= n < 10 -> fixed (S k) n = replicate k "0"%char ++ [digit n].
Proof.
  intros Hn. cbn [fixed].
  rewrite Z.div_small, Z.mod_small, fixed_zero by easy. easy.
Qed.

Lemma dec_digits_S (f : nat) (n : Z) :
  dec_digits (S f) n
  = if n <? 10 then [digit n] else dec_digits f (n / 10) ++ [digit (n mod 10)].
Proof. reflexivity. Qed.

Lemma dec_digits_fixed (f : nat) : forall (n : Z) (k : nat),
  0 <= n < 10 ^ Z.of_nat k -> (1 <= k)%nat -> n < 2 ^ Z.of_nat (S f) ->
  replicate (k - length (dec_digits (S f) n)) "0"%char ++ dec_digits (S f) n
  = fixed k n.
Proof.
  induction f as [|f IH]; intros n k Hn Hk Hf.
  - cbn [dec_digits]. change (2 ^ Z.of_nat 1) with 2 in Hf.
    destruct (Z.ltb_spec n 10); [|lia].
    destruct k as [|k]; [lia|]. rewrite fixed_small by lia.
    cbn [length]. now replace (S k - 1)%nat with k by lia.
  - rewrite dec_digits_S. destruct (Z.ltb_spec n 10) as [Hs|Hs].
    + destruct k as [|k]; [lia|]. rewrite fixed_small by lia.
      cbn [length]. now replace (S k - 1)%nat with k by lia.
    + destruct k as [|[|k]]; [lia|change (10 ^ Z.of_nat 1) with 10 in Hn; lia|].
      assert (Hq : 0 <= n / 10 < 10 ^ Z.of_nat (S k)).
      { split; [apply Z.div_pos; lia|].
        apply Z.div_lt_upper_bound; [lia|].
        rewrite <- Z.pow_succ_r by lia. now rewrite <- Nat2Z.inj_succ. }
      assert (Hq2 : n / 10 < 2 ^ Z.of_nat (S f)).
      { apply Z.div_lt_upper_bound; [lia|].
        rewrite (Nat2Z.inj_succ (S f)), Z.pow_succ_r in Hf by lia. lia. }
      specialize (IH (n / 10) (S k) Hq ltac:(lia) Hq2).
      change (fixed (S (S k)) n) with (fixed (S k) (n / 10) ++ [digit (n mod 10)]).
      rewrite <- IH.
      rewrite length_app. cbn [length].
      replace (S (S k) - (length (dec_digits (S f) (n / 10)) + 1))%nat
        with (S k - length (dec_digits (S f) (n / 10)))%nat by lia.
      now rewrite app_assoc.
Qed.

(** Below [10 ^ k] the padded output is the number on exactly [k] digits. *)
Lemma setw_setfill_fixed (k : nat) (n : Z) :
  (1 <= k)%nat -> 0 <= n < 10 ^ Z.of_nat k ->
  setw_setfill k "0"%char n = fixed k n.
Proof.
  intros Hk Hn. unfold setw_setfill, int_chars.
  destruct (Z.ltb_spec n 0); [lia|].
  apply dec_digits_fixed; try easy.
  rewrite Nat2Z.inj_succ, Z2Nat.id by apply Z.log2_nonneg.
  destruct (Z.eq_dec n 0) as [->|Hn0]; [easy|].
  apply Z.log2_spec. lia.
Qed.

Lemma read_dec_snoc (cs : list ascii) (c : ascii) :
  read_dec (cs ++ [c]) = 10 * read_dec cs + digit_val c.
Proof. unfold read_dec. now rewrite foldl_app. Qed.

Lemma read_dec_fixed (k : nat) : forall n,
  0 <= n -> read_dec (fixed k n) = n mod 10 ^ Z.of_nat k.
Proof.
  induction k as [|k IH]; intros n Hn.
  - cbn. now rewrite Z.mod_1_r.
  - cbn [fixed]. rewrite read_dec_snoc, IH by (apply Z.div_pos; lia).
    rewrite digit_val_digit by (apply Z.mod_pos_bound; lia).
    rewrite Nat2Z.inj_succ, Z.pow_succ_r by lia.
    rewrite Z.rem_mul_r by lia. lia.
Qed.

Lemma cmp_refl (a : list ascii) : cmp a a = Eq.
Proof.
  unfold cmp. induction a as [|c a IH]; cbn; [easy|].
  unfold Ascii.compare. now rewrite N.compare_refl.
Qed.

Lemma cmp_app (a : list ascii) : forall b x y,
  length a = length b ->
  cmp (a ++ x) (b ++ y)
  = match cmp a b with Eq => cmp x y | c => c end.
Proof.
  unfold cmp. induction a as [|c a IH]; intros [|d b] x y Hlen;
    cbn in Hlen; try discriminate; cbn; [easy|].
  destruct (Ascii.compare c d); try easy.
  apply IH. lia.
Qed.

(** On a fixed number of digits, the order of the strings is the order of
    the numbers. *)
Lemma fixed_lt (k : nat) : forall n n',
  0 <= n -> n < n' -> n' < 10 ^ Z.of_nat k ->
  cmp (fixed k n) (fixed k n') = Lt.
Proof.
  induction k as [|k IH]; intros n n' Hn Hlt Hk.
  - change (10 ^ Z.of_nat 0) with 1 in Hk. lia.
  - cbn [fixed]. rewrite cmp_app by now rewrite !fixed_length.
    rewrite Nat2Z.inj_succ, Z.pow_succ_r in Hk by lia.
    destruct (Z.eq_dec (n / 10) (n' / 10)) as [Heq|Hne].
    + rewrite Heq, cmp_refl. unfold cmp. cbn.
      rewrite digit_compare; try easy;
        try (apply Z.mod_pos_bound; lia).
      rewrite (Z.mod_eq n 10), (Z.mod_eq n' 10) by lia. lia.
    + rewrite IH; try easy.
      * apply Z.div_pos; lia.
      * assert (n / 10 <= n' / 10) by (apply Z.div_le_mono; lia). lia.
      * apply Z.div_lt_upper_bound; lia.
Qed.

Lemma read_dec_app (a b : list ascii) :
  read_dec (a ++ b) = foldl (fun acc c => 10 * acc + digit_val c) (read_dec a) b.
Proof. unfold read_dec. now rewrite foldl_app. Qed.

Lemma read_dec_zeros (j : nat) : read_dec (replicate j "0"%char) = 0.
Proof.
  induction j as [|j IH]; [easy|].
  rewrite replicate_S_end, read_dec_snoc, IH. easy.
Qed.

Lemma read_dec_leading_zeros (j : nat) (cs : list ascii) :
  read_dec (replicate j "0"%char ++ cs) = read_dec cs.
Proof. now rewrite read_dec_app, read_dec_zeros. Qed.

(** The padded output always reads back as the number. *)
Lemma read_dec_setw_setfill (w : nat) (n : Z) :
  0 <= n -> read_dec (setw_setfill w "0"%char n) = n.
Proof.
  intros Hn. unfold setw_setfill. rewrite read_dec_leading_zeros.
  unfold int_chars. destruct (Z.ltb_spec n 0); [lia|].
  set (f := Z.to_nat (Z.log2 n)).
  assert (Hf : n < 2 ^ Z.of_nat (S f)).
  { unfold f. rewrite Nat2Z.inj_succ, Z2Nat.id by apply Z.log2_nonneg.
    destruct (Z.eq_dec n 0) as [->|Hn0]; [easy|].
    apply Z.log2_spec. lia. }
  assert (Hk : n < 10 ^ Z.of_nat (S f)).
  { apply Z.lt_le_trans with (2 ^ Z.of_nat (S f)); [easy|].
    apply Z.pow_le_mono_l. lia. }
  rewrite <- (read_dec_leading_zeros (S f - length (dec_digits (S f) n))).
  rewrite dec_digits_fixed by (easy || lia).
  rewrite read_dec_fixed by easy. apply Z.mod_small. lia.
Qed.

Lemma setw_setfill_length (w : nat) (n : Z) :
  (w <= length (setw_setfill w "0"%char n))%nat.
Proof.
  unfold setw_setfill. rewrite length_app, length_replicate. lia.
Qed.

End FmtFacts.

Section CounterFacts.
Import Cv Visualizer.

Variables Point3 Intrinsics : Type.
Variable project3dPointTo2d :
  Point3 -> CameraParams Intrinsics -> option (Z * Z * Z).

Local Abbreviation process := (process project3dPointTo2d).
Local Abbreviation process_all := (process_all project3dPointTo2d).

Lemma process_counter (v : DataVisualizer Intrinsics) (frame : Frame Point3) :
  numFrames (after (process v frame)) = numFrames v + 1 /\
  saveToDisk (after (process v frame)) = saveToDisk v.
Proof. easy. Qed.

Lemma process_all_counter (frames : list (Frame Point3)) :
  forall v : DataVisualizer Intrinsics,
  numFrames (snd (process_all v frames))
  = numFrames v + Z.of_nat (length frames) /\
  List.map (fun r => option_map fst (written r)) (fst (process_all v frames))
  = List.map (fun k => if saveToDisk v
                       then Some (file_name (numFrames v + Z.of_nat k))
                       else None)
      (seq 0 (length frames)).
Proof.
  induction frames as [|frame frames IH]; intros v.
  - cbn. split; [lia|easy].
  - cbn [Visualizer.process_all length].
    specialize (IH (after (process v frame))).
    destruct (Visualizer.process_all project3dPointTo2d
                (after (process v frame)) frames) as [rs v'] eqn:Hall.
    cbn [fst snd] in *. destruct IH as [IHn IHw].
    destruct (process_counter v frame) as [Hn Hs].
    split; [lia|].
    cbn [List.map seq]. f_equal.
    + rewrite written_image. destruct (saveToDisk v); cbn; [|easy].
      now rewrite Z.add_0_r.
    + rewrite IHw, <- seq_shift, List.map_map.
      apply List.map_ext. intros k. rewrite Hs, Hn.
      destruct (saveToDisk v); [|easy].
      do 2 f_equal. lia.
Qed.

Lemma file_name_lt (n n' : Z) :
  0 <= n -> n < n' -> n' < 100000000 ->
  String.compare (file_name n) (file_name n') = Lt.
Proof.
  intros Hn Hlt Hn'. unfold file_name, file_name_chars, frame_index.
  rewrite !(setw_setfill_fixed 8) by (cbn; lia).
  change (Fmt.cmp
            (list_ascii_of_string path ++ Fmt.fixed 8 n
             ++ list_ascii_of_string "_frame.bmp")
            (list_ascii_of_string path ++ Fmt.fixed 8 n'
             ++ list_ascii_of_string "_frame.bmp") = Lt).
  rewrite cmp_app, cmp_refl by easy.
  rewrite cmp_app by now rewrite !fixed_length.
  now rewrite fixed_lt.
Qed.

(** C7, as amended: [init] sets the counter to 0 and every call of
    [process] adds exactly one to it, with or without recording; with
    recording enabled the k-th call (from 0) writes the file whose name
    carries k padded with zeros to at least 8 digits, the first one being
    [00000000_frame.bmp]; the index always reads back as k, and while k
    stays below 10^8 it has exactly 8 digits and the names increase
    strictly in the order of strings. *)
Theorem frame_counter_and_names
    (cFormat dFormat : CameraParams Intrinsics)
    (v0 : DataVisualizer Intrinsics) (frames : list (Frame Point3)) :
  let v := init cFormat dFormat v0 in
  numFrames v = 0 /\
  (forall u frame, numFrames (after (process u frame)) = numFrames u + 1) /\
  numFrames (snd (process_all v frames)) = Z.of_nat (length frames) /\
  List.map (fun r => option_map fst (written r)) (fst (process_all v frames))
  = List.map (fun k => if saveToDisk v0 then Some (file_name (Z.of_nat k)) else None)
      (seq 0 (length frames)) /\
  file_name 0 = "C:\temp\tst\anim\00000000_frame.bmp"%string /\
  (forall n, 0 <= n ->
     Fmt.read_dec (frame_index n) = n /\ (8 <= length (frame_index n))%nat) /\
  (forall n, 0 <= n < 100000000 ->
     length (frame_index n) = 8%nat /\
     Forall (fun c => Fmt.is_digit c = true) (frame_index n)) /\
  (forall n n', 0 <= n -> n < n' -> n' < 100000000 ->
     String.compare (file_name n) (file_name n') = Lt).
Proof.
  intros v.
  destruct (process_all_counter frames v) as [Hn Hw].
  split; [easy|]. split; [easy|]. split; [easy|].
  split; [exact Hw|]. split; [easy|].
  split; [|split].
  - intros n Hn0. split.
    + now apply read_dec_setw_setfill.
    + apply setw_setfill_length.
  - intros n Hn0. unfold frame_index.
    rewrite setw_setfill_fixed by (cbn; lia).
    split; [apply fixed_length|apply fixed_digits].
  - apply file_name_lt.
Qed.

End CounterFacts.

(** ** [resizeImg] *)

Section ResizeFacts.
Import Cv Visualizer.
Context {A : Type} `{Pixel A}.

Lemma Qfloor_ratio (x s w : nat) :
  (0 < w)%nat ->
  Z.to_nat (Qfloor (inject_Z (Z.of_nat x) * (Z.of_nat s # Pos.of_nat w)))
  = (x * s / w)%nat.
Proof.
  intros Hw. unfold Qmult, inject_Z, Qfloor. cbn [Qnum Qden].
  rewrite Pos.mul_1_l.
  replace (Z.pos (Pos.of_nat w)) with (Z.of_nat w)
    by lia.
  rewrite <- Nat2Z.inj_mul, <- Nat2Z.inj_div. apply Nat2Z.id.
Qed.

(** Nearest-neighbour sampling: destination pixel [(y, x)] is the source
    pixel at the scaled-down coordinates. *)
Lemma resize_nearest_at (img : Mat A) (w h : nat) fx fy (y x : nat) :
  (y < h)%nat -> (x < w)%nat ->
  Mat_at (resize_nearest img (w, h) fx fy) y x
  = Mat_at img (Nat.min (y * rows img / h) (rows img - 1))
               (Nat.min (x * cols img / w) (cols img - 1)).
Proof.
  intros Hy Hx. unfold resize_nearest. cbn [fst snd].
  destruct (Nat.eqb_spec w 0); [lia|].
  destruct (Nat.eqb_spec h 0); [lia|]. cbn [orb].
  rewrite Mat_build_at by easy.
  now rewrite !Qfloor_ratio by lia.
Qed.

(** C6: [resizeImg] gives the image back untouched when its size is the
    target size; otherwise it gives OpenCV's nearest-neighbour resize to
    the target size, which for a non-empty target has that size, is
    therefore another image, and holds at each pixel the source pixel at
    the scaled-down coordinates; so, for a non-empty target, the image
    comes back untouched exactly when the sizes agree. *)
Theorem resizeImg_identity_or_nearest (img : Mat A) (w h : nat) :
  (cols img = w /\ rows img = h -> resizeImg img w h = img) /\
  (cols img <> w \/ rows img <> h ->
     resizeImg img w h = resize_nearest img (w, h) 0 0 /\
     ((0 < w)%nat -> (0 < h)%nat ->
        cols (resizeImg img w h) = w /\ rows (resizeImg img w h) = h /\
        resizeImg img w h <> img /\
        forall y x, (y < h)%nat -> (x < w)%nat ->
          Mat_at (resizeImg img w h) y x
          = Mat_at img (Nat.min (y * rows img / h) (rows img - 1))
                       (Nat.min (x * cols img / w) (cols img - 1)))) /\
  ((0 < w)%nat -> (0 < h)%nat ->
     (resizeImg img w h = img <-> cols img = w /\ rows img = h)).
Proof.
  assert (Hid : cols img = w /\ rows img = h -> resizeImg img w h = img).
  { intros [Hc Hr]. unfold resizeImg.
    rewrite (proj2 (Nat.eqb_eq _ _) Hc), (proj2 (Nat.eqb_eq _ _) Hr). easy. }
  split; [exact Hid|]. split.
  2:{ intros Hw Hh. split; [|exact Hid].
      intros Heq.
      destruct (resizeImg_size img w h Hw Hh) as [Hr Hc].
      rewrite Heq in Hr, Hc. easy. }
  - intros Hne.
    assert (E : resizeImg img w h = resize_nearest img (w, h) 0 0).
    { unfold resizeImg.
      destruct (Nat.eqb_spec (cols img) w), (Nat.eqb_spec (rows img) h);
        cbn [negb orb]; try easy. lia. }
    split; [exact E|]. intros Hw Hh. rewrite E.
    destruct (resize_nearest_size img w h 0 0 Hw Hh) as [Hr Hc].
    split; [easy|]. split; [easy|]. split.
    + intros Heq. rewrite Heq in Hr, Hc. lia.
    + intros y x Hy Hx. now apply resize_nearest_at.
Qed.

End ResizeFacts.

(** ** The acquire loop of the grabber *)

Section GrabberFacts.
Import Cv Grabber.

Variable Point3 : Type.
Variable PXC_STATUS_NO_ERROR : Z.

Local Abbreviation loop_body := (@loop_body Point3 PXC_STATUS_NO_ERROR).
Local Abbreviation acquire_loop := (@acquire_loop Point3 PXC_STATUS_NO_ERROR).
Local Abbreviation run := (@run Point3 PXC_STATUS_NO_ERROR).
Local Abbreviation transient_error := (transient_error PXC_STATUS_NO_ERROR).
Local Abbreviation frame_of := (@frame_of Point3 PXC_STATUS_NO_ERROR).
Local Abbreviation delivered := (@delivered Point3 PXC_STATUS_NO_ERROR).

Lemma loop_body_queues (a : Acquisition) (g : Grabber Point3) :
  queues (loop_body a g)
  = List.map (fun queue => queue ++ frame_of a) (queues g).
Proof.
  unfold Grabber.loop_body, Grabber.frame_of, Grabber.transient_error.
  destruct (sample a) as [[[color|] [depth|]]|]; cbn;
    try (now rewrite (List.map_ext _ id), List.map_id
           by (intros q; apply app_nil_r)).
  destruct (accessStatus color <? PXC_STATUS_NO_ERROR); cbn;
    [now rewrite (List.map_ext _ id), List.map_id
       by (intros q; apply app_nil_r)|].
  destruct (accessStatus depth <? PXC_STATUS_NO_ERROR); cbn;
    [now rewrite (List.map_ext _ id), List.map_id
       by (intros q; apply app_nil_r)|].
  easy.
Qed.

Lemma loop_body_logs (a : Acquisition) (g : Grabber Point3) :
  transient_error a = true ->
  exists e rest, log (loop_body a g) = log g ++ rest ++ [e] /\
    match e with
    | SampleIsNull | ColorIsNull | DepthIsNull
    | NoColorAccess _ _ | NoDepthAccess _ _ => True
    | _ => False
    end.
Proof.
  unfold Grabber.loop_body, Grabber.transient_error.
  destruct (sample a) as [[[color|] [depth|]]|]; cbn;
    try (intros _; eexists _, []; split; [reflexivity|easy]).
  destruct (accessStatus color <? PXC_STATUS_NO_ERROR); cbn.
  - intros _. eexists _, [_; _]. rewrite <- !app_assoc. cbn.
    split; [reflexivity|easy].
  - destruct (accessStatus depth <? PXC_STATUS_NO_ERROR); cbn; [|easy].
    intros _. eexists _, [_; _]. rewrite <- !app_assoc. cbn.
    split; [reflexivity|easy].
Qed.

Lemma acquire_loop_queues (answers : list Acquisition) :
  forall g : Grabber Point3,
  queues (fst (acquire_loop answers g))
  = List.map (fun queue => queue ++ delivered answers) (queues g).
Proof.
  induction answers as [|a answers IH]; intros g; cbn.
  - now rewrite (List.map_ext _ id), List.map_id
      by (intros q; apply app_nil_r).
  - destruct (PXC_STATUS_NO_ERROR <=? status a); cbn.
    + rewrite IH, loop_body_queues, List.map_map.
      apply List.map_ext. intros q. now rewrite app_assoc.
    + now rewrite (List.map_ext _ id), List.map_id
        by (intros q; apply app_nil_r).
Qed.

(** C8: a below-threshold status ends the loop at once, with the queues
    as they are and the later answers never asked for; a sample with a
    transient error is logged and skipped, the queues stay as they are and
    the loop goes on with the next answer; over a whole run every queue
    receives exactly the frames of the samples without transient error
    acquired before the loop ended, so none for a skipped sample. *)
Theorem grabber_skips_and_stops
    (a : Acquisition) (answers : list Acquisition) (g : Grabber Point3) :
  (status a < PXC_STATUS_NO_ERROR ->
     acquire_loop (a :: answers) g
     = (tlog (Finished (status a)) g, LoopEnded (status a)) /\
     queues (fst (acquire_loop (a :: answers) g)) = queues g) /\
  (PXC_STATUS_NO_ERROR <= status a -> transient_error a = true ->
     acquire_loop (a :: answers) g = acquire_loop answers (loop_body a g) /\
     queues (loop_body a g) = queues g /\
     frame_of a = [] /\
     exists e rest, log (loop_body a g) = log g ++ rest ++ [e] /\
       match e with
       | SampleIsNull | ColorIsNull | DepthIsNull
       | NoColorAccess _ _ | NoDepthAccess _ _ => True
       | _ => False
       end) /\
  (forall qs,
     queues (fst (run (a :: answers) qs))
     = List.map (fun queue => queue ++ delivered (a :: answers)) qs).
Proof.
  split; [|split].
  - intros Hst. cbn [Grabber.acquire_loop].
    destruct (Z.leb_spec PXC_STATUS_NO_ERROR (status a)); [lia|]. easy.
  - intros Hst Herr. cbn [Grabber.acquire_loop].
    destruct (Z.leb_spec PXC_STATUS_NO_ERROR (status a)); [|lia].
    assert (Hf : frame_of a = []).
    { unfold Grabber.frame_of. rewrite Herr.
      now destruct (sample a) as [[[color|] [depth|]]|]. }
    split; [easy|]. split.
    + rewrite loop_body_queues, Hf.
      now rewrite (List.map_ext _ id), List.map_id
        by (intros q; apply app_nil_r).
    + split; [easy|]. now apply loop_body_logs.
  - intros qs. unfold Grabber.run. now rewrite acquire_loop_queues.
Qed.

End GrabberFacts.

(** ** The properties on the sample inputs *)

Section OnExamples.
Import Cv Visualizer Examples.

Local Abbreviation process := (process ortho).
Local Abbreviation aligned_depth := (aligned_depth ortho).

(** C1 as the specification words it fails at depth 500: the exact boost
    is 36 + 2/3, its nearest integer 37, and the green channel shown is
    128 + 36. *)
Lemma fusion_green_rounded_fails :
  300 < Mat_at (aligned_depth (visualizer 0 false) (frame_at 500)) 0 0 < 6000 /\
  Vec_get (Mat_at (shown (process (visualizer 0 false) (frame_at 500))) 0 0) 1
  <> claimed_green
       (Vec_get (Mat_at (aligned_color (visualizer 0 false) (frame_at 500)) 0 0) 1)
       (Mat_at (aligned_depth (visualizer 0 false) (frame_at 500)) 0 0).
Proof. vm_compute. split; [split; reflexivity|discriminate]. Qed.

(** The amended C1 on a grey frame at depth 1000: green is 128 + 33. *)
Lemma fusion_green_truncates_example :
  Vec_get (Mat_at (shown (process (visualizer 0 false) (frame_at 1000))) 0 0) 1
  = Z.min (Vec_get (Mat_at (aligned_color (visualizer 0 false) (frame_at 1000)) 0 0) 1
           + Qfloor (exact_boost
                       (Mat_at (aligned_depth (visualizer 0 false) (frame_at 1000)) 0 0)))
          255.
Proof.
  apply (fusion_green_truncates _ _ ortho (visualizer 0 false) (frame_at 1000) 0 0).
  - vm_compute. lia.
  - vm_compute. lia.
  - vm_compute. repeat split; discriminate.
  - vm_compute. split; reflexivity.
Defined.

(** C2 on a grey frame at depth 6000: the pixel is shown unchanged. *)
Lemma fusion_out_of_range_example :
  Mat_at (shown (process (visualizer 0 false) (frame_at 6000))) 0 0
  = Mat_at (aligned_color (visualizer 0 false) (frame_at 6000)) 0 0.
Proof.
  apply (fusion_out_of_range_unchanged _ _ ortho
           (visualizer 0 false) (frame_at 6000) 0 0).
  - vm_compute. lia.
  - vm_compute. lia.
  - vm_compute. split; [discriminate|reflexivity].
  - right. vm_compute. discriminate.
Defined.

(** C9 on two grey frames, at depth 1000 and at depth 2000. *)
Lemma fusion_green_monotone_example :
  Vec_get (Mat_at (shown (process (visualizer 0 false) (frame_at 2000))) 1 1) 1
  <= Vec_get (Mat_at (shown (process (visualizer 0 false) (frame_at 1000))) 1 1) 1.
Proof.
  apply (fusion_green_monotone _ _ ortho
           (visualizer 0 false) (frame_at 1000) (frame_at 2000) 1 1).
  - vm_compute. lia.
  - vm_compute. lia.
  - vm_compute. reflexivity.
  - vm_compute. repeat split; discriminate.
  - vm_compute. reflexivity.
  - vm_compute. discriminate.
  - vm_compute. reflexivity.
Defined.

(** C10 on a grey frame at depth 1000. *)
Lemma fusion_touches_green_only_example :
  Vec_get (Mat_at (shown (process (visualizer 0 false) (frame_at 1000))) 0 1) 0
  = Vec_get (Mat_at (aligned_color (visualizer 0 false) (frame_at 1000)) 0 1) 0 /\
  Vec_get (Mat_at (shown (process (visualizer 0 false) (frame_at 1000))) 0 1) 2
  = Vec_get (Mat_at (aligned_color (visualizer 0 false) (frame_at 1000)) 0 1) 2 /\
  Vec_get (Mat_at (aligned_color (visualizer 0 false) (frame_at 1000)) 0 1) 1
  <= Vec_get (Mat_at (shown (process (visualizer 0 false) (frame_at 1000))) 0 1) 1.
Proof.
  apply (fusion_touches_green_only _ _ ortho
           (visualizer 0 false) (frame_at 1000) 0 1).
  - vm_compute. lia.
  - vm_compute. lia.
  - vm_compute. repeat split; discriminate.
  - vm_compute. split; [discriminate|reflexivity].
Defined.

(** The cloud of [cloud_frame] gives the grid [[1200, 0], [0, 900]]: the
    later of the two points at [(0, 0)] wins, the points without valid
    projection leave no trace. *)
Example synthesize_cloud_frame :
  synthesize ortho (cam 2 2) (cloud cloud_frame) = mkMat 2 2 [1200; 0; 0; 900].
Proof. reflexivity. Qed.

(** C3 on [cloud_frame]. *)
Lemma synthesized_depth_grid_example :
  Mat_empty (depth cloud_frame) = true /\
  aligned_depth (visualizer 0 false) cloud_frame
  = resizeImg (synthesize ortho (cam 2 2) (cloud cloud_frame)) 2 2 /\
  Mat_at (synthesize ortho (cam 2 2) (cloud cloud_frame)) 0 0
  = default 0 (last (omap (hits ortho (cam 2 2) 0 0) (cloud cloud_frame))).
Proof.
  assert (Hempty : Mat_empty (depth cloud_frame) = true) by reflexivity.
  destruct (synthesized_depth_grid _ _ ortho (visualizer 0 false) cloud_frame Hempty)
    as (Hal & _ & _ & _ & Hat & _).
  split; [exact Hempty|]. split; [exact Hal|].
  apply (Hat 0%nat 0%nat); vm_compute; lia.
Defined.

(** C4 as the specification words it fails on a 2x2 frame: the image
    written is 2x2 like the aligned depth grid, not larger. *)
Lemma recorded_image_upsampled_fails :
  match written (process (visualizer 0 true) (frame_at 1000)) with
  | Some (_, img) =>
      rows img = rows (aligned_depth (visualizer 0 true) (frame_at 1000)) /\
      cols img = cols (aligned_depth (visualizer 0 true) (frame_at 1000)) /\
      ~ (rows (aligned_depth (visualizer 0 true) (frame_at 1000))
         * cols (aligned_depth (visualizer 0 true) (frame_at 1000))
         < rows img * cols img)%nat
  | None => False
  end.
Proof. vm_compute. repeat split. lia. Qed.

(** The amended C4 on a recorded grey frame. *)
Lemma recorded_image_not_upsampled_example :
  exists s img,
    written (process (visualizer 0 true) (frame_at 1000)) = Some (s, img) /\
    img = depthPretty (aligned_depth (visualizer 0 true) (frame_at 1000)) /\
    rows img = rows (aligned_depth (visualizer 0 true) (frame_at 1000)) /\
    cols img = cols (aligned_depth (visualizer 0 true) (frame_at 1000)).
Proof.
  apply (recorded_image_not_upsampled _ _ ortho (visualizer 0 true) (frame_at 1000)).
  reflexivity.
Defined.

(** At depth 1000 the false colour is (30, 0, 225). *)
Example depthPretty_frame_at_1000 :
  depthPretty (flat_depth 1 2 1000) = mkMat 1 2 [mkVec3b 30 0 225; mkVec3b 30 0 225]
  /\ depthPretty (flat_depth 1 1 0) = mkMat 1 1 [mkVec3b 0 0 0].
Proof. vm_compute. split; reflexivity. Qed.

(** C5 on a recorded grey frame at depth 1000. *)
Lemma false_colour_per_pixel_example :
  exists s img,
    written (process (visualizer 0 true) (frame_at 1000)) = Some (s, img) /\
    forall i j,
      (i < rows (aligned_depth (visualizer 0 true) (frame_at 1000)))%nat ->
      (j < cols (aligned_depth (visualizer 0 true) (frame_at 1000)))%nat ->
      let d := Mat_at (aligned_depth (visualizer 0 true) (frame_at 1000)) i j in
      let d' := Z.min (Z.max d 800) 2500 in
      (d = 0 -> Mat_at img i j = mkVec3b 0 0 0) /\
      (d <> 0 ->
         800 <= d' <= 2500 /\
         forall k, (k < 3)%nat ->
           (Qabs (inject_Z (Vec_get (Mat_at img i j) k) - lerp_exact d' k)
            <= 1 # 2)%Q).
Proof.
  apply (false_colour_per_pixel _ _ ortho (visualizer 0 true) (frame_at 1000)).
  reflexivity.
Defined.

(** C6 on a 2x2 image: kept at size 2x2, resampled at size 4x3. *)
Lemma resizeImg_example :
  resizeImg (gray_image 2 2) 2 2 = gray_image 2 2 /\
  resizeImg (flat_depth 2 2 7) 4 3 = resize_nearest (flat_depth 2 2 7) (4, 3)%nat 0 0 /\
  cols (resizeImg (flat_depth 2 2 7) 4 3) = 4%nat /\
  rows (resizeImg (flat_depth 2 2 7) 4 3) = 3%nat.
Proof.
  split.
  - apply (proj1 (resizeImg_identity_or_nearest (gray_image 2 2) 2 2)).
    split; reflexivity.
  - destruct (proj1 (proj2 (resizeImg_identity_or_nearest (flat_depth 2 2 7) 4 3)))
      as [E Hsize].
    + left. vm_compute. discriminate.
    + split; [exact E|].
      destruct Hsize as (Hc & Hr & _); [vm_compute; lia|vm_compute; lia|].
      split; [exact Hc|exact Hr].
Defined.

(** C7 as the specification words it fails once the counter reaches 10^8:
    the index then takes nine digits. *)
Lemma eight_digit_names_fail :
  match written (process (visualizer 100000000 true) (frame_at 1000)) with
  | Some (s, _) =>
      s = "C:\temp\tst\anim\100000000_frame.bmp"%string /\
      length (frame_index 100000000) <> 8%nat
  | None => False
  end.
Proof. vm_compute. split; [reflexivity|discriminate]. Qed.

(** The amended C7 on three recorded frames. *)
Lemma frame_counter_and_names_example :
  numFrames (snd (process_all ortho (init (cam 2 2) (cam 2 2) (visualizer 7 true))
                    [frame_at 1000; frame_at 2000; cloud_frame])) = 3 /\
  List.map (fun r => option_map fst (written r))
    (fst (process_all ortho (init (cam 2 2) (cam 2 2) (visualizer 7 true))
            [frame_at 1000; frame_at 2000; cloud_frame]))
  = [Some (file_name 0); Some (file_name 1); Some (file_name 2)] /\
  String.compare (file_name 9) (file_name 10) = Lt.
Proof.
  destruct (frame_counter_and_names _ _ ortho (cam 2 2) (cam 2 2)
              (visualizer 7 true) [frame_at 1000; frame_at 2000; cloud_frame])
    as (_ & _ & Hn & Hw & _ & _ & _ & Hlt).
  split; [exact Hn|]. split; [exact Hw|].
  apply Hlt; lia.
Defined.

(** A run on five answers: one frame reaches each queue, the loop ends on
    the error status, the sample after it is never acquired. *)
Example run_five_answers :
  let r := Grabber.run (Point3 := unit) 0
             [good_sample; no_depth_sample; no_access_sample; device_lost; good_sample]
             [[]; []] in
  List.map (fun q => length q) (Grabber.queues (fst r)) = [1; 1]%nat /\
  snd r = Grabber.LoopEnded (-3) /\
  Grabber.numFrames (fst r) = 2.
Proof. vm_compute. repeat split; reflexivity. Qed.

(** C8 on an error status and on a sample whose colour access fails. *)
Lemma grabber_skips_and_stops_example :
  Grabber.acquire_loop 0 [device_lost; good_sample]
    (Grabber.mkGrabber (Point3 := unit) [[]] 0 [])
  = (Grabber.tlog (Grabber.Finished (-3)) (Grabber.mkGrabber [[]] 0 []),
     Grabber.LoopEnded (-3)) /\
  Grabber.queues
    (Grabber.loop_body 0 no_access_sample (Grabber.mkGrabber (Point3 := unit) [[]] 0 []))
  = [[]].
Proof.
  split.
  - apply (proj1 (grabber_skips_and_stops unit 0 device_lost [good_sample]
                    (Grabber.mkGrabber [[]] 0 []))).
    vm_compute. reflexivity.
  - apply (proj1 (proj2 (grabber_skips_and_stops unit 0 no_access_sample []
                           (Grabber.mkGrabber [[]] 0 [])))).
    + vm_compute. discriminate.
    + reflexivity.
Defined.

End OnExamples.

(** * Further properties of the visualizer *)

(** ** Values and sizes of resized images *)

Section ResizeMore.
Import Cv Visualizer.
Context {A : Type} `{Pixel A}.

Lemma Mat_at_Forall (P : A -> Prop) (m : Mat A) (i j : nat) :
  P px_zero -> Forall P (data m) -> P (Mat_at m i j).
Proof.
  intros H0 Hall. unfold Mat_at. destruct (in_Mat m i j); [|easy].
  destruct (data m !! (i * cols m + j)%nat) as [x|] eqn:Hx; cbn; [|easy].
  eapply Forall_lookup_1; eassumption.
Qed.

Lemma Mat_set_Forall (P : A -> Prop) (m : Mat A) i j v :
  Forall P (data m) -> P v -> Forall P (data (Mat_set m i j v)).
Proof.
  intros Hall Hv. unfold Mat_set. destruct (in_Mat m i j); [|easy].
  cbn. now apply Forall_insert.
Qed.

Lemma Mat_build_Forall (P : A -> Prop) (h w : nat) (f : nat -> nat -> A) :
  (forall i j, P (f i j)) -> Forall P (data (Mat_build h w f)).
Proof.
  intros Hf. apply List.Forall_forall. intros x Hx. cbn in Hx.
  apply in_flat_map in Hx. destruct Hx as (i & _ & Hx).
  apply in_map_iff in Hx. destruct Hx as (j & <- & _). apply Hf.
Qed.

Lemma zeros_Forall (P : A -> Prop) (h w : nat) :
  P px_zero -> Forall P (data (zeros h w : Mat A)).
Proof. intros H0. cbn. now apply Forall_replicate. Qed.

Lemma resizeImg_Forall (P : A -> Prop) (img : Mat A) (w h : nat) :
  P px_zero -> Forall P (data img) -> Forall P (data (resizeImg img w h)).
Proof.
  intros H0 Hall. unfold resizeImg.
  destruct (negb (cols img =? w)%nat || negb (rows img =? h)%nat); [|easy].
  unfold resize_nearest.
  destruct ((fst (w, h) =? 0)%nat || (snd (w, h) =? 0)%nat);
    apply Mat_build_Forall; intros; now apply Mat_at_Forall.
Qed.

(** X6: Resizing twice to the same non-empty size is resizing once. *)
Theorem resizeImg_idempotent (img : Mat A) (w h : nat) :
  (0 < w)%nat -> (0 < h)%nat ->
  resizeImg (resizeImg img w h) w h = resizeImg img w h.
Proof.
  intros Hw Hh. destruct (resizeImg_size img w h Hw Hh) as [Hr Hc].
  unfold resizeImg at 1. rewrite Hr, Hc, !Nat.eqb_refl. easy.
Qed.

(** X7: Nearest-neighbour resizing blends nothing: every pixel of the resized
    image is the pixel of the source at some position of the source. *)
Theorem resizeImg_takes_source_pixels (img : Mat A) (w h y x : nat) :
  (0 < rows img)%nat -> (0 < cols img)%nat ->
  (y < h)%nat -> (x < w)%nat ->
  exists i j, (i < rows img)%nat /\ (j < cols img)%nat /\
    Mat_at (resizeImg img w h) y x = Mat_at img i j.
Proof.
  intros Hr Hc Hy Hx. unfold resizeImg.
  destruct (Nat.eqb_spec (cols img) w) as [Ew|Ew];
    destruct (Nat.eqb_spec (rows img) h) as [Eh|Eh]; cbn [negb orb];
    try (rewrite resize_nearest_at by easy;
         eexists _, _; split; [|split; [|reflexivity]]; lia).
  exists y, x. repeat split; lia.
Qed.

End ResizeMore.

(** ** Values and sizes of the image shown *)

Section ShownMore.
Import Cv Visualizer.

Variables Point3 Intrinsics : Type.
Variable project3dPointTo2d :
  Point3 -> CameraParams Intrinsics -> option (Z * Z * Z).

Local Abbreviation process := (process project3dPointTo2d).
Local Abbreviation aligned_depth := (aligned_depth project3dPointTo2d).
Local Abbreviation synthesize := (synthesize project3dPointTo2d).
Local Abbreviation project_store := (project_store project3dPointTo2d).
Local Abbreviation hits := (hits project3dPointTo2d).

Lemma fusion_inv (color : Mat Vec3b) (depth : Mat Z) (m : Mat Vec3b) :
  Mat_wf m ->
  Mat_wf (fusion color depth m) /\
  rows (fusion color depth m) = rows m /\
  cols (fusion color depth m) = cols m.
Proof.
  intros Hwf. unfold fusion.
  destruct (pixel_loops
              (fun i j => Some (fused_pixel (Mat_at color i j) (Mat_at depth i j)))
              (fun i j => fusion_body color depth i j)
              (fusion_body_upd color depth)
              (rows depth) (cols depth) m Hwf) as (H1 & H2 & H3 & _).
  easy.
Qed.

(** X1: The image shown always has the alignment size, the smaller of the two
    streams' widths and heights, whatever the shapes in the frame. *)
Theorem shown_size (v : DataVisualizer Intrinsics) (frame : Frame Point3) :
  rows (shown (process v frame))
  = Nat.min (cam_h (colorCamera v)) (cam_h (depthCamera v)) /\
  cols (shown (process v frame))
  = Nat.min (cam_w (colorCamera v)) (cam_w (depthCamera v)) /\
  Mat_wf (shown (process v frame)).
Proof.
  unfold Visualizer.process. cbn [shown].
  destruct (fusion_inv (aligned_color v frame) (aligned_depth v frame)
              (zeros (align_h v) (align_w v)) (zeros_wf _ _))
    as (Hwf & Hr & Hc).
  split; [exact Hr|]. split; [exact Hc|exact Hwf].
Qed.

Lemma fused_pixel_in_range (c : Vec3b) (d : Z) :
  Vec3b_ok c -> 300 < d < 6000 ->
  fused_pixel c d = Vec_set c 1 (Z.min (val1 c + (6000 - d) / 150) 255).
Proof.
  intros (_ & Hg & _) Hd. unfold fused_pixel.
  rewrite out_of_range_spec by (unfold is_ushort; lia).
  destruct (Z.leb_spec d 300); [lia|].
  destruct (Z.leb_spec 6000 d); [lia|]. cbn [orb].
  rewrite depthColor_spec by easy. cbn [Vec_get]. f_equal.
  unfold uchar, is_uchar in *.
  assert (0 <= (6000 - d) / 150) by (apply Z.div_pos; lia).
  apply Z.mod_small. lia.
Qed.

Lemma fused_pixel_ok (c : Vec3b) (d : Z) :
  Vec3b_ok c -> is_ushort d -> Vec3b_ok (fused_pixel c d).
Proof.
  intros Hc Hd.
  destruct (Z_le_gt_dec d 300) as [Hlo|Hlo];
    [now rewrite fused_out_of_range by (easy || lia)|].
  destruct (Z_le_gt_dec 6000 d) as [Hhi|Hhi];
    [now rewrite fused_out_of_range by (easy || lia)|].
  rewrite fused_pixel_in_range by (easy || lia).
  destruct Hc as (H0 & H1 & H2). unfold Vec3b_ok, is_uchar in *. cbn.
  assert (0 <= (6000 - d) / 150) by (apply Z.div_pos; lia). lia.
Qed.

Lemma store_int_Forall (P : Z -> Prop) (m : Mat Z) iImg jImg d :
  Forall P (data m) -> P d -> Forall P (data (store_int m iImg jImg d)).
Proof.
  intros Hall Hd. unfold store_int.
  destruct ((0 <=? iImg) && (0 <=? jImg)); [|easy].
  now apply Mat_set_Forall.
Qed.

Lemma synthesize_Forall (P : Z -> Prop) (cam : CameraParams Intrinsics)
    (cloud : list Point3) :
  P 0 ->
  (forall p i j d, In p cloud -> project3dPointTo2d p cam = Some (i, j, d) -> P d) ->
  Forall P (data (synthesize cam cloud)).
Proof.
  intros H0. induction cloud as [|p cloud IH] using rev_ind; intros Hp.
  - now apply zeros_Forall.
  - rewrite synthesize_snoc. unfold Visualizer.project_store.
    assert (IH' : Forall P (data (synthesize cam cloud))).
    { apply IH. intros q i j d Hq. apply Hp, in_or_app. now left. }
    destruct (project3dPointTo2d p cam) as [[[iImg jImg] d]|] eqn:Hproj; [|easy].
    apply store_int_Forall; [easy|].
    apply (Hp p iImg jImg d); [|easy]. apply in_or_app. right. now left.
Qed.

Lemma aligned_depth_ushort (v : DataVisualizer Intrinsics) (frame : Frame Point3) :
  Forall is_ushort (data (depth frame)) ->
  (forall p i j d, In p (cloud frame) ->
     project3dPointTo2d p (depthCamera v) = Some (i, j, d) -> is_ushort d) ->
  forall i j, is_ushort (Mat_at (aligned_depth v frame) i j).
Proof.
  intros Hd Hp i j.
  assert (H0 : is_ushort px_zero) by (unfold is_ushort, px_zero, Pixel_Z; lia).
  apply Mat_at_Forall; [easy|]. unfold Visualizer.aligned_depth.
  destruct (negb (Mat_empty (depth frame))); apply resizeImg_Forall; try easy.
  now apply synthesize_Forall.
Qed.


(** X3: The green channel is raised by 37 at most, never by the nominal 40,
    and a depth above 5850 leaves the pixel as it is although it lies
    inside the boosted interval. *)
Theorem fusion_boost_bounds
    (v : DataVisualizer Intrinsics) (frame : Frame Point3) (i j : nat) :
  (i < align_h v)%nat -> (j < align_w v)%nat ->
  Vec3b_ok (Mat_at (aligned_color v frame) i j) ->
  is_ushort (Mat_at (aligned_depth v frame) i j) ->
  Vec_get (Mat_at (shown (process v frame)) i j) 1
  <= Vec_get (Mat_at (aligned_color v frame) i j) 1 + 37 /\
  (5850 < Mat_at (aligned_depth v frame) i j ->
   Mat_at (shown (process v frame)) i j = Mat_at (aligned_color v frame) i j).
Proof.
  intros Hi Hj Hc Hu. rewrite shown_at by easy.
  set (c := Mat_at (aligned_color v frame) i j) in *.
  set (d := Mat_at (aligned_depth v frame) i j) in *.
  destruct (Z_le_gt_dec d 300) as [Hlo|Hlo];
    [rewrite fused_out_of_range by (easy || lia); split; [lia|easy]|].
  destruct (Z_le_gt_dec 6000 d) as [Hhi|Hhi];
    [rewrite fused_out_of_range by (easy || lia); split; [lia|easy]|].
  rewrite fused_pixel_in_range by (easy || lia).
  assert (Hb : 0 <= (6000 - d) / 150 <= 37).
  { split; [apply Z.div_pos; lia|].
    apply Z.lt_succ_r, Z.div_lt_upper_bound; lia. }
  split.
  - cbn [Vec_set Vec_get val1]. lia.
  - intros Hd.
    assert (Hz : (6000 - d) / 150 = 0) by (apply Z.div_small; lia).
    rewrite Hz. destruct Hc as (_ & Hg & _). unfold is_uchar in Hg.
    destruct c as [c0 c1 c2]. cbn in *. f_equal. lia.
Qed.

End ShownMore.

(** ** Frames without dense depth *)

Section CloudMore.
Import Cv Visualizer.

Variables Point3 Intrinsics : Type.
Variable project3dPointTo2d :
  Point3 -> CameraParams Intrinsics -> option (Z * Z * Z).

Local Abbreviation process := (process project3dPointTo2d).
Local Abbreviation aligned_depth := (aligned_depth project3dPointTo2d).
Local Abbreviation synthesize := (synthesize project3dPointTo2d).
Local Abbreviation hits := (hits project3dPointTo2d).

Lemma synthesize_no_projection (cam : CameraParams Intrinsics)
    (cloud : list Point3) :
  (forall p, In p cloud -> project3dPointTo2d p cam = None) ->
  synthesize cam cloud = zeros (cam_h cam) (cam_w cam).
Proof.
  induction cloud as [|p cloud IH] using rev_ind; intros Hp; [easy|].
  rewrite synthesize_snoc, project_store_none.
  - apply IH. intros q Hq. apply Hp, in_or_app. now left.
  - apply Hp, in_or_app. right. now left.
Qed.

Lemma resizeImg_zeros_at (a b w h i j : nat) :
  Mat_at (resizeImg (zeros a b : Mat Z) w h) i j = 0.
Proof.
  apply (Mat_at_Forall (fun x => x = 0)); [easy|].
  apply resizeImg_Forall; [easy|]. now apply zeros_Forall.
Qed.

(** X4: A frame with neither dense depth nor any point that projects is shown
    as its aligned colour image, pixel for pixel. *)
Theorem no_depth_passthrough
    (v : DataVisualizer Intrinsics) (frame : Frame Point3) (i j : nat) :
  Mat_empty (depth frame) = true ->
  (forall p, In p (cloud frame) ->
     project3dPointTo2d p (depthCamera v) = None) ->
  (i < align_h v)%nat -> (j < align_w v)%nat ->
  Mat_at (shown (process v frame)) i j = Mat_at (aligned_color v frame) i j.
Proof.
  intros Hempty Hp Hi Hj. rewrite shown_at by easy.
  unfold Visualizer.aligned_depth. rewrite Hempty. cbn [negb].
  rewrite synthesize_no_projection by easy.
  rewrite resizeImg_zeros_at.
  apply fused_out_of_range; [unfold is_ushort|]; lia.
Qed.

(** X5: When the depth stream is not larger than the colour stream, the grid
    synthesized from the cloud is used as it is; a pixel onto which no
    point projects is then shown unchanged, and a pixel whose last point
    lies at a distance strictly between 300 and 6000 gets the boost of
    that distance. *)
Theorem cloud_depth_unresampled
    (v : DataVisualizer Intrinsics) (frame : Frame Point3) :
  Mat_empty (depth frame) = true ->
  (cam_w (depthCamera v) <= cam_w (colorCamera v))%nat ->
  (cam_h (depthCamera v) <= cam_h (colorCamera v))%nat ->
  aligned_depth v frame = synthesize (depthCamera v) (cloud frame) /\
  forall i j, (i < cam_h (depthCamera v))%nat -> (j < cam_w (depthCamera v))%nat ->
    (omap (hits (depthCamera v) i j) (cloud frame) = [] ->
     Mat_at (shown (process v frame)) i j = Mat_at (aligned_color v frame) i j) /\
    (forall d, last (omap (hits (depthCamera v) i j) (cloud frame)) = Some d ->
       300 < d < 6000 ->
       Vec3b_ok (Mat_at (aligned_color v frame) i j) ->
       Vec_get (Mat_at (shown (process v frame)) i j) 1
       = Z.min (Vec_get (Mat_at (aligned_color v frame) i j) 1
                + (6000 - d) / 150) 255).
Proof.
  intros Hempty Hw Hh.
  destruct (synthesize_inv _ _ project3dPointTo2d (depthCamera v) (cloud frame))
    as (_ & Hr & Hc & Hat).
  assert (Ew : align_w v = cam_w (depthCamera v)) by (unfold align_w; lia).
  assert (Eh : align_h v = cam_h (depthCamera v)) by (unfold align_h; lia).
  assert (E : aligned_depth v frame = synthesize (depthCamera v) (cloud frame)).
  { unfold Visualizer.aligned_depth. rewrite Hempty. cbn [negb].
    unfold resizeImg. rewrite Ew, Eh, Hr, Hc, !Nat.eqb_refl. easy. }
  split; [exact E|]. intros i j Hi Hj.
  rewrite shown_at by lia. rewrite E, Hat by easy. split.
  - intros Hnone. rewrite Hnone. cbn.
    apply fused_out_of_range; [unfold is_ushort|]; lia.
  - intros d Hd Hin Hok. rewrite Hd. cbn [default].
    now apply fused_green.
Qed.

End CloudMore.

(** ** The false colours *)

Section FalseColourMore.
Import Cv Visualizer FalseColour.

Lemma finalColor_ends : finalColor dMin = close /\ finalColor dMax = far.
Proof. vm_compute. split; reflexivity. Qed.

Lemma finalColor_ok (d : Z) :
  dMin <= d <= dMax ->
  Vec3b_ok (finalColor d) /\ val1 (finalColor d) = 0.
Proof.
  intros Hd.
  assert (Hb : finalColor_valid d = true).
  { apply (Zrange_forallb finalColor_valid 800 (Z.to_nat 1701)).
    - vm_compute. reflexivity.
    - unfold dMin, dMax in Hd. lia. }
  unfold finalColor_valid in Hb. rewrite !andb_true_iff in Hb.
  destruct Hb as ((((H1 & H2) & H3) & H4) & H5).
  unfold Vec3b_ok, is_uchar. lia.
Qed.

Lemma finalColor_step (d : Z) :
  dMin <= d < dMax ->
  val0 (finalColor d) <= val0 (finalColor (d + 1)) /\
  val2 (finalColor (d + 1)) <= val2 (finalColor d).
Proof.
  intros Hd.
  assert (Hb : finalColor_steps d = true).
  { apply (Zrange_forallb finalColor_steps 800 (Z.to_nat 1700)).
    - vm_compute. reflexivity.
    - unfold dMin, dMax in Hd. lia. }
  unfold finalColor_steps in Hb. rewrite andb_true_iff in Hb. lia.
Qed.

Lemma finalColor_monotone (n : nat) : forall d,
  dMin <= d -> d + Z.of_nat n <= dMax ->
  val0 (finalColor d) <= val0 (finalColor (d + Z.of_nat n)) /\
  val2 (finalColor (d + Z.of_nat n)) <= val2 (finalColor d).
Proof.
  induction n as [|n IH]; intros d Hlo Hhi.
  - rewrite Z.add_0_r. lia.
  - destruct (IH d Hlo ltac:(lia)) as [I0 I2].
    destruct (finalColor_step (d + Z.of_nat n) ltac:(lia)) as [S0 S2].
    replace (d + Z.of_nat (S n)) with (d + Z.of_nat n + 1) by lia. lia.
Qed.

Section Recorded.

Variables Point3 Intrinsics : Type.
Variable project3dPointTo2d :
  Point3 -> CameraParams Intrinsics -> option (Z * Z * Z).

Local Abbreviation process := (process project3dPointTo2d).
Local Abbreviation aligned_depth := (aligned_depth project3dPointTo2d).

Lemma recorded_at (v : DataVisualizer Intrinsics) (frame : Frame Point3)
    s img (i j : nat) :
  written (process v frame) = Some (s, img) ->
  (i < rows (aligned_depth v frame))%nat ->
  (j < cols (aligned_depth v frame))%nat ->
  Mat_at img i j
  = if Mat_at (aligned_depth v frame) i j =? 0 then mkVec3b 0 0 0
    else finalColor (clamp_depth (Mat_at (aligned_depth v frame) i j)).
Proof.
  rewrite written_image. destruct (saveToDisk v); [|easy].
  intros [= _ <-] Hi Hj.
  now apply depthPretty_inv.
Qed.

(** X8: In the recorded image every depth from 1 to 800 has exactly the near
    colour and every depth from 2500 on exactly the far colour; all
    pixels hold 8-bit channels and no green. *)
Theorem false_colour_saturates
    (v : DataVisualizer Intrinsics) (frame : Frame Point3) s img (i j : nat) :
  written (process v frame) = Some (s, img) ->
  (i < rows (aligned_depth v frame))%nat ->
  (j < cols (aligned_depth v frame))%nat ->
  (0 < Mat_at (aligned_depth v frame) i j <= 800 -> Mat_at img i j = close) /\
  (2500 <= Mat_at (aligned_depth v frame) i j -> Mat_at img i j = far) /\
  Vec3b_ok (Mat_at img i j) /\
  Vec_get (Mat_at img i j) 1 = 0.
Proof.
  intros Hw Hi Hj. rewrite (recorded_at v frame s img i j Hw Hi Hj).
  set (d := Mat_at (aligned_depth v frame) i j).
  destruct finalColor_ends as [Hclose Hfar].
  split; [|split].
  - intros Hd. destruct (Z.eqb_spec d 0); [lia|].
    replace (clamp_depth d) with dMin by (unfold clamp_depth, dMin, dMax; lia).
    exact Hclose.
  - intros Hd. destruct (Z.eqb_spec d 0); [lia|].
    replace (clamp_depth d) with dMax by (unfold clamp_depth, dMin, dMax; lia).
    exact Hfar.
  - destruct (Z.eqb_spec d 0).
    + unfold Vec3b_ok, is_uchar. cbn. lia.
    + apply finalColor_ok. unfold clamp_depth, dMin, dMax. lia.
Qed.

(** X9: Within one recorded image, of two pixels with known depth the farther
    one is at least as blue (first channel) and at most as red (last
    channel) as the nearer one. *)
Theorem false_colour_monotone
    (v : DataVisualizer Intrinsics) (frame : Frame Point3) s img
    (i j i' j' : nat) :
  written (process v frame) = Some (s, img) ->
  (i < rows (aligned_depth v frame))%nat ->
  (j < cols (aligned_depth v frame))%nat ->
  (i' < rows (aligned_depth v frame))%nat ->
  (j' < cols (aligned_depth v frame))%nat ->
  Mat_at (aligned_depth v frame) i j <> 0 ->
  Mat_at (aligned_depth v frame) i' j' <> 0 ->
  Mat_at (aligned_depth v frame) i j <= Mat_at (aligned_depth v frame) i' j' ->
  Vec_get (Mat_at img i j) 0 <= Vec_get (Mat_at img i' j') 0 /\
  Vec_get (Mat_at img i' j') 2 <= Vec_get (Mat_at img i j) 2.
Proof.
  intros Hw Hi Hj Hi' Hj' Hd Hd' Hle.
  rewrite (recorded_at v frame s img i j Hw Hi Hj).
  rewrite (recorded_at v frame s img i' j' Hw Hi' Hj').
  set (d := Mat_at (aligned_depth v frame) i j) in *.
  set (d' := Mat_at (aligned_depth v frame) i' j') in *.
  destruct (Z.eqb_spec d 0); [easy|]. destruct (Z.eqb_spec d' 0); [easy|].
  assert (Hc : dMin <= clamp_depth d <= clamp_depth d' /\ clamp_depth d' <= dMax)
    by (unfold clamp_depth, dMin, dMax; lia).
  replace (clamp_depth d')
    with (clamp_depth d + Z.of_nat (Z.to_nat (clamp_depth d' - clamp_depth d)))
    by lia.
  apply finalColor_monotone; lia.
Qed.

End Recorded.

End FalseColourMore.

(** ** A run of the visualizer *)

Section RunMore.
Import Cv Visualizer.

Variables Point3 Intrinsics : Type.
Variable project3dPointTo2d :
  Point3 -> CameraParams Intrinsics -> option (Z * Z * Z).

Local Abbreviation process := (process project3dPointTo2d).
Local Abbreviation process_all := (process_all project3dPointTo2d).

Lemma file_name_inj (n n' : Z) :
  0 <= n -> 0 <= n' -> file_name n = file_name n' -> n = n'.
Proof.
  intros Hn Hn' Heq. unfold file_name in Heq.
  apply (f_equal list_ascii_of_string) in Heq.
  rewrite !list_ascii_of_string_of_list_ascii in Heq.
  unfold file_name_chars in Heq.
  apply app_inv_head, app_inv_tail in Heq.
  apply (f_equal Fmt.read_dec) in Heq. unfold frame_index in Heq.
  now rewrite !read_dec_setw_setfill in Heq.
Qed.

Lemma omap_of_map {X Y : Type} (f : X -> option Y) (g : nat -> Y) (l : list X) :
  forall l' : list nat,
  List.map f l = List.map (fun k => Some (g k)) l' ->
  omap f l = List.map g l'.
Proof.
  induction l as [|x l IH]; intros [|k l'] Heq; cbn in Heq; try discriminate.
  - easy.
  - injection Heq as Hx Hl. cbn. rewrite Hx. cbn. f_equal. now apply IH.
Qed.

(** X10: With recording enabled and a non-negative counter, every call of a
    run writes a file and no two calls write to the same file name,
    however long the run gets. *)
Theorem recorded_names_distinct
    (v : DataVisualizer Intrinsics) (frames : list (Frame Point3)) :
  0 <= numFrames v -> saveToDisk v = true ->
  length (omap (fun r => option_map fst (written r)) (fst (process_all v frames)))
  = length frames /\
  NoDup (omap (fun r => option_map fst (written r)) (fst (process_all v frames))).
Proof.
  intros Hn Hs.
  destruct (process_all_counter _ _ project3dPointTo2d frames v) as [_ Hw].
  rewrite Hs in Hw.
  rewrite (omap_of_map _ (fun k => file_name (numFrames v + Z.of_nat k)) _ _ Hw).
  split.
  - now rewrite length_map, length_seq.
  - apply (NoDup_fmap_2_strong (fun k => file_name (numFrames v + Z.of_nat k)));
      [|apply NoDup_seq].
    intros k k' _ _ Heq. apply file_name_inj in Heq; lia.
Qed.

Lemma process_all_length (frames : list (Frame Point3)) :
  forall v : DataVisualizer Intrinsics,
  length (fst (process_all v frames)) = length frames.
Proof.
  induction frames as [|f frames IH]; intros v; [easy|].
  cbn [Visualizer.process_all]. specialize (IH (after (process v f))).
  destruct (Visualizer.process_all project3dPointTo2d (after (process v f)) frames).
  cbn in *. lia.
Qed.

(** X11: A run never changes the stream parameters or the recording switch,
    so every image shown during a run has one and the same size. *)
Theorem run_keeps_setup (frames : list (Frame Point3)) :
  forall v : DataVisualizer Intrinsics,
  colorCamera (snd (process_all v frames)) = colorCamera v /\
  depthCamera (snd (process_all v frames)) = depthCamera v /\
  saveToDisk (snd (process_all v frames)) = saveToDisk v /\
  Forall (fun r => rows (shown r) = align_h v /\ cols (shown r) = align_w v)
    (fst (process_all v frames)).
Proof.
  induction frames as [|f frames IH]; intros v.
  - cbn. repeat split; constructor.
  - cbn [Visualizer.process_all]. specialize (IH (after (process v f))).
    destruct (Visualizer.process_all project3dPointTo2d (after (process v f)) frames)
      as [rs v'].
    cbn [fst snd] in *. destruct IH as (Hc & Hd & Hs & Hall).
    split; [exact Hc|]. split; [exact Hd|]. split; [exact Hs|].
    constructor.
    + destruct (shown_size _ _ project3dPointTo2d v f) as (Hr & Hcs & _).
      split; [exact Hr|exact Hcs].
    + exact Hall.
Qed.

End RunMore.

(** * Further properties of the grabber *)

Section GrabberMore.
Import Cv Grabber Setup.

Variable Point3 : Type.
Variable PXC_STATUS_NO_ERROR : Z.

Local Abbreviation loop_body := (@loop_body Point3 PXC_STATUS_NO_ERROR).
Local Abbreviation acquire_loop := (@acquire_loop Point3 PXC_STATUS_NO_ERROR).
Local Abbreviation run := (@run Point3 PXC_STATUS_NO_ERROR).
Local Abbreviation transient_error := (transient_error PXC_STATUS_NO_ERROR).
Local Abbreviation frame_of := (@frame_of Point3 PXC_STATUS_NO_ERROR).
Local Abbreviation delivered := (@delivered Point3 PXC_STATUS_NO_ERROR).
Local Abbreviation acquired := (acquired PXC_STATUS_NO_ERROR).

(** X12: Whatever the sensor would answer after a below-threshold status is
    never asked for: the run is the one that stops at that status. *)
Theorem later_answers_ignored
    (pre post : list Acquisition) (a : Acquisition) :
  status a < PXC_STATUS_NO_ERROR ->
  forall g : Grabber Point3,
  acquire_loop (pre ++ a :: post) g = acquire_loop (pre ++ [a]) g /\
  exists lastStatus,
    snd (acquire_loop (pre ++ a :: post) g) = LoopEnded lastStatus /\
    lastStatus < PXC_STATUS_NO_ERROR.
Proof.
  intros Ha. induction pre as [|b pre IH]; intros g; cbn.
  - destruct (Z.leb_spec PXC_STATUS_NO_ERROR (status a)); [lia|].
    split; [easy|]. now exists (status a).
  - destruct (Z.leb_spec PXC_STATUS_NO_ERROR (status b)).
    + apply IH.
    + split; [easy|]. now exists (status b).
Qed.

(** X13: The loop is still acquiring at the end of the answers exactly when
    no status was below the threshold; otherwise it has ended, and the
    status logged last is that of the first such answer. *)
Theorem loop_ends_on_first_error (answers : list Acquisition) :
  forall g : Grabber Point3,
  (snd (acquire_loop answers g) = StillAcquiring <->
   Forall (fun a => PXC_STATUS_NO_ERROR <= status a) answers) /\
  (forall lastStatus,
     snd (acquire_loop answers g) = LoopEnded lastStatus ->
     lastStatus < PXC_STATUS_NO_ERROR /\
     exists a, nth_error answers (length (acquired answers)) = Some a /\
               status a = lastStatus /\
               last (log (fst (acquire_loop answers g))) = Some (Finished lastStatus)).
Proof.
  induction answers as [|a answers IH]; intros g; cbn.
  - split; [split; [constructor|easy]|]. discriminate.
  - destruct (Z.leb_spec PXC_STATUS_NO_ERROR (status a)) as [Hok|Hbad].
    + destruct (IH (loop_body a g)) as [IH1 IH2]. split.
      * rewrite IH1. split.
        -- intros Hall. now constructor.
        -- intros Hall. now inversion Hall.
      * intros s Hs. cbn [length nth_error]. now apply IH2.
    + split.
      * split; [discriminate|]. intros Hall. inversion Hall. lia.
      * intros s [= <-]. split; [easy|]. exists a. cbn.
        split; [easy|]. split; [easy|]. apply last_snoc.
Qed.

(** X14: Queues registered with [addQueue] are served in the order of their
    registration, and a run appends the same frames, in the order of
    their production, to every queue, behind what the queue already
    held; no queue is added or dropped. *)
Theorem fan_out (qs : list (list (Frame Point3)))
    (answers : list Acquisition) (g : Grabber Point3) :
  let g' := foldl (fun g q => addQueue q g) g qs in
  queues g' = queues g ++ qs /\
  queues (fst (acquire_loop answers g'))
  = List.map (fun q => q ++ delivered answers) (queues g ++ qs) /\
  length (queues (fst (acquire_loop answers g'))) = length (queues g ++ qs).
Proof.
  intros g'.
  assert (Hq : queues g' = queues g ++ qs).
  { unfold g'. clear g'. revert g.
    induction qs as [|q qs IH]; intros g; cbn; [now rewrite app_nil_r|].
    rewrite IH. cbn. now rewrite <- app_assoc. }
  split; [exact Hq|].
  rewrite acquire_loop_queues, Hq. split; [easy|].
  now rewrite length_map.
Qed.

Lemma frame_of_length (a : Acquisition) :
  length (frame_of a) = if transient_error a then 0%nat else 1%nat.
Proof.
  unfold Grabber.frame_of, Grabber.transient_error.
  destruct (sample a) as [[[color|] [depth|]]|]; cbn; try easy.
  now destruct ((accessStatus color <? PXC_STATUS_NO_ERROR)
                || (accessStatus depth <? PXC_STATUS_NO_ERROR)).
Qed.

Lemma loop_body_counts (a : Acquisition) (g : Grabber Point3) :
  numFrames (loop_body a g)
  = numFrames g + (if both_buffers a then 1 else 0) /\
  length (List.filter is_skip_entry (log (loop_body a g)))
  = (length (List.filter is_skip_entry (log g))
     + if transient_error a then 1 else 0)%nat.
Proof.
  unfold Grabber.loop_body, both_buffers, Grabber.transient_error.
  destruct (sample a) as [[[color|] [depth|]]|]; cbn;
    rewrite ?List.filter_app, ?length_app; cbn; try lia.
  destruct (accessStatus color <? PXC_STATUS_NO_ERROR); cbn;
    rewrite ?List.filter_app, ?length_app; cbn; try lia.
  destruct (accessStatus depth <? PXC_STATUS_NO_ERROR); cbn;
    rewrite ?List.filter_app, ?length_app; cbn; lia.
Qed.

Lemma acquire_loop_counts (answers : list Acquisition) :
  forall g : Grabber Point3,
  numFrames (fst (acquire_loop answers g))
  = numFrames g + Z.of_nat (length (List.filter both_buffers (acquired answers))) /\
  length (List.filter is_skip_entry (log (fst (acquire_loop answers g))))
  = (length (List.filter is_skip_entry (log g))
     + length (List.filter transient_error (acquired answers)))%nat.
Proof.
  induction answers as [|a answers IH]; intros g; cbn.
  - split; lia.
  - destruct (PXC_STATUS_NO_ERROR <=? status a); cbn.
    + destruct (IH (loop_body a g)) as [IHn IHl].
      destruct (loop_body_counts a g) as [Hn Hl].
      rewrite IHn, IHl, Hn, Hl.
      destruct (both_buffers a), (transient_error a); cbn; split; lia.
    + rewrite List.filter_app, length_app. cbn. split; lia.
Qed.

Lemma delivered_length (answers : list Acquisition) :
  (length (delivered answers)
   + length (List.filter transient_error (acquired answers))
   = length (acquired answers))%nat.
Proof.
  induction answers as [|a answers IH]; cbn; [easy|].
  destruct (PXC_STATUS_NO_ERROR <=? status a); cbn; [|easy].
  rewrite length_app, frame_of_length.
  destruct (transient_error a); cbn; lia.
Qed.

Lemma good_has_buffers (a : Acquisition) :
  transient_error a = false -> both_buffers a = true.
Proof.
  unfold Grabber.transient_error, both_buffers.
  now destruct (sample a) as [[[color|] [depth|]]|].
Qed.

Lemma filter_length_le {X : Type} (f g : X -> bool) (l : list X) :
  (forall x, f x = true -> g x = true) ->
  (length (List.filter f l) <= length (List.filter g l))%nat.
Proof.
  intros Hfg. induction l as [|x l IH]; cbn; [lia|].
  destruct (f x) eqn:Hf.
  - rewrite (Hfg x Hf). cbn. lia.
  - destruct (g x); cbn; lia.
Qed.

(** X15: After a run the local counter is the number of acquired samples that
    had both buffers, whether or not their access then failed: it is at
    least the number of frames delivered to a queue and at most the
    number of samples acquired. *)
Theorem frame_numbers_count_buffered_samples
    (answers : list Acquisition) (qs : list (list (Frame Point3))) :
  numFrames (fst (run answers qs))
  = Z.of_nat (length (List.filter both_buffers (acquired answers))) /\
  Z.of_nat (length (delivered answers)) <= numFrames (fst (run answers qs)) /\
  numFrames (fst (run answers qs)) <= Z.of_nat (length (acquired answers)) /\
  (length (acquired answers) <= length answers)%nat.
Proof.
  unfold Grabber.run.
  destruct (acquire_loop_counts answers
              {| queues := qs; numFrames := 0; log := [] |}) as [Hn _].
  cbn [numFrames] in Hn. rewrite Hn, Z.add_0_l.
  split; [easy|]. split; [|split].
  - apply inj_le.
    pose proof (delivered_length answers) as Hd.
    assert (Hle : (length (List.filter (fun a => negb (transient_error a))
                             (acquired answers))
                   <= length (List.filter both_buffers (acquired answers)))%nat).
    { apply filter_length_le. intros a Ha. apply good_has_buffers.
      now destruct (transient_error a). }
    assert (Hsplit : (length (List.filter (fun a => negb (transient_error a))
                                (acquired answers))
                      + length (List.filter transient_error (acquired answers))
                      = length (acquired answers))%nat).
    { clear. induction (acquired answers) as [|a l IH]; cbn; [easy|].
      destruct (transient_error a); cbn; lia. }
    lia.
  - apply inj_le. clear.
    induction (acquired answers) as [|a l IH]; cbn; [lia|].
    destruct (both_buffers a); cbn; lia.
  - clear. induction answers as [|a answers IH]; cbn; [lia|].
    destruct (PXC_STATUS_NO_ERROR <=? status a); cbn; lia.
Qed.

(** X16: Log and skip, one for one: the log of a run holds exactly one error
    entry for each sample skipped, so the samples acquired are the frames
    delivered plus the error entries logged. *)
Theorem one_error_entry_per_skipped_sample
    (answers : list Acquisition) (qs : list (list (Frame Point3))) :
  length (List.filter is_skip_entry (log (fst (run answers qs))))
  = length (List.filter transient_error (acquired answers)) /\
  (length (delivered answers)
   + length (List.filter is_skip_entry (log (fst (run answers qs))))
   = length (acquired answers))%nat.
Proof.
  unfold Grabber.run.
  destruct (acquire_loop_counts answers
              {| queues := qs; numFrames := 0; log := [] |}) as [_ Hl].
  cbn [log List.filter length] in Hl. rewrite Hl. cbn [Nat.add].
  split; [easy|]. apply delivered_length.
Qed.

End GrabberMore.

(** ** Start-up of the grabber *)

Section InitMore.
Import Setup.

Variable PXC_STATUS_NO_ERROR : Z.

Local Abbreviation query_devices := (query_devices PXC_STATUS_NO_ERROR).
Local Abbreviation query_modules := (query_modules PXC_STATUS_NO_ERROR).
Local Abbreviation init := (init PXC_STATUS_NO_ERROR).
Local Abbreviation listed := (listed PXC_STATUS_NO_ERROR).
Local Abbreviation created := (created PXC_STATUS_NO_ERROR).
Local Abbreviation named := (named PXC_STATUS_NO_ERROR).
Local Abbreviation found := (found PXC_STATUS_NO_ERROR).
Local Abbreviation loops_end := (loops_end PXC_STATUS_NO_ERROR).

Lemma released_app (e e' : list InitEvent) :
  released (e ++ e') = released e ++ released e'.
Proof. unfold released. apply omap_app. Qed.

Lemma logged_modules_app (e e' : list InitEvent) :
  logged_modules (e ++ e') = logged_modules e ++ logged_modules e'.
Proof. unfold logged_modules. apply omap_app. Qed.

Lemma query_devices_some (answers : list DeviceAnswer) :
  forall deviceIdx numDevices events r,
  query_devices deviceIdx answers numDevices events = Some r ->
  fst r = (numDevices + length (found answers))%nat /\
  released (snd r) = released events /\
  logged_modules (snd r) = logged_modules events.
Proof.
  induction answers as [|a answers IH]; intros idx n ev r; cbn; [easy|].
  destruct (deviceStatus a <? PXC_STATUS_NO_ERROR).
  - intros [= <-]. cbn. split; [lia|easy].
  - intros Hr. destruct (IH _ _ _ _ Hr) as (H1 & H2 & H3).
    rewrite H1, H2, H3, released_app, logged_modules_app. cbn.
    rewrite !app_nil_r. split; [lia|easy].
Qed.

Lemma query_devices_ends (answers : list DeviceAnswer) :
  forall deviceIdx numDevices events,
  existsb (fun a => deviceStatus a <? PXC_STATUS_NO_ERROR) answers = true ->
  exists r, query_devices deviceIdx answers numDevices events = Some r.
Proof.
  induction answers as [|a answers IH]; intros idx n ev; cbn; [easy|].
  destruct (deviceStatus a <? PXC_STATUS_NO_ERROR); cbn; [eauto|].
  apply IH.
Qed.

Lemma query_modules_some (answers : list ModuleAnswer) :
  forall moduleIdx events events',
  query_modules moduleIdx answers events = Some events' ->
  released events' = released events ++ created moduleIdx (listed answers) /\
  logged_modules events'
  = logged_modules events ++ named moduleIdx (listed answers).
Proof.
  induction answers as [|m answers IH]; intros idx ev ev'; cbn; [easy|].
  destruct (queryStatus m <? PXC_STATUS_NO_ERROR).
  - intros [= <-]. cbn. now rewrite !app_nil_r.
  - cbn. destruct (createStatus m <? PXC_STATUS_NO_ERROR).
    + intros Hq. destruct (IH _ _ _ Hq) as [H1 H2].
      rewrite H1, H2, released_app, logged_modules_app. cbn.
      now rewrite !app_nil_r.
    + destruct (Setup.query_devices PXC_STATUS_NO_ERROR 0 (deviceAnswers m) 0 ev)
        as [[n ev1]|] eqn:Hd; [|easy].
      destruct (query_devices_some _ _ _ _ _ Hd) as (Hn & Hr & Hl).
      cbn [fst snd] in Hn, Hr, Hl. cbn [Nat.add] in Hn. subst n.
      destruct (length (found (deviceAnswers m)));
        intros Hq; destruct (IH _ _ _ Hq) as [H1 H2];
        rewrite H1, H2, !released_app, !logged_modules_app, ?Hr, ?Hl; cbn;
        rewrite ?app_nil_r, <- ?app_assoc; easy.
Qed.

Lemma query_modules_ends (answers : list ModuleAnswer) :
  forall moduleIdx events,
  loops_end answers = true ->
  exists events', query_modules moduleIdx answers events = Some events'.
Proof.
  unfold Setup.loops_end.
  induction answers as [|m answers IH]; intros idx ev; cbn; [easy|].
  destruct (queryStatus m <? PXC_STATUS_NO_ERROR); cbn; [eauto|].
  rewrite andb_true_iff. intros (Hex & Hall).
  apply andb_true_iff in Hall. destruct Hall as [Hm Hall].
  destruct (createStatus m <? PXC_STATUS_NO_ERROR); cbn in Hm.
  - apply IH. now rewrite Hex, Hall.
  - destruct (query_devices_ends (deviceAnswers m) 0 0 ev Hm) as [[n ev1] Hd].
    rewrite Hd. apply IH. now rewrite Hex, Hall.
Qed.

Lemma created_lower (answers : list ModuleAnswer) :
  forall moduleIdx i, In i (created moduleIdx answers) -> (moduleIdx <= i)%nat.
Proof.
  induction answers as [|m answers IH]; intros idx i; cbn; [easy|].
  destruct (createStatus m <? PXC_STATUS_NO_ERROR).
  - intros Hi. apply IH in Hi. lia.
  - intros [<-|Hi]; [lia|]. apply IH in Hi. lia.
Qed.

Lemma created_NoDup (answers : list ModuleAnswer) :
  forall moduleIdx, List.NoDup (created moduleIdx answers).
Proof.
  induction answers as [|m answers IH]; intros idx; cbn; [constructor|].
  destruct (createStatus m <? PXC_STATUS_NO_ERROR); [apply IH|].
  constructor; [|apply IH].
  intros Hi. apply created_lower in Hi. lia.
Qed.

Lemma created_length (answers : list ModuleAnswer) :
  forall moduleIdx,
  length (created moduleIdx answers)
  = length (List.filter (fun m => negb (createStatus m <? PXC_STATUS_NO_ERROR))
              answers).
Proof.
  induction answers as [|m answers IH]; intros idx; cbn; [easy|].
  destruct (createStatus m <? PXC_STATUS_NO_ERROR); cbn; [apply IH|].
  f_equal. apply IH.
Qed.

Lemma named_created (answers : list ModuleAnswer) :
  forall moduleIdx i, In i (named moduleIdx answers) ->
                      In i (created moduleIdx answers).
Proof.
  induction answers as [|m answers IH]; intros idx i; cbn; [easy|].
  destruct (createStatus m <? PXC_STATUS_NO_ERROR); [apply IH|].
  destruct (length (found (deviceAnswers m))).
  - intros Hi. right. now apply IH.
  - intros [<-|Hi]; [now left|]. right. now apply IH.
Qed.

(** X17: [init] comes to an end as soon as the loops over the modules and
    their devices do. *)
Theorem init_ends (answers : list ModuleAnswer) (captureManager device : bool) :
  loops_end answers = true ->
  exists events, init answers captureManager device = Some events.
Proof.
  intros Hend. unfold Setup.init.
  destruct (query_modules_ends answers 0 [LogSession; LogLoopOverModules] Hend)
    as [ev Hev].
  rewrite Hev. destruct captureManager, device; cbn; eauto.
Qed.

(** X18: When [init] ends, the captures released are exactly the captures
    created, each once and in the order of creation: those of the modules
    listed before the first failing [QueryImpl] whose [CreateImpl]
    succeeded.  A module whose [CreateImpl] fails is skipped without
    ending the listing. *)
Theorem every_capture_released_once
    (answers : list ModuleAnswer) (captureManager device : bool)
    (events : list InitEvent) :
  init answers captureManager device = Some events ->
  released events = created 0 (listed answers) /\
  List.NoDup (released events) /\
  length (released events)
  = length (List.filter (fun m => negb (createStatus m <? PXC_STATUS_NO_ERROR))
              (listed answers)).
Proof.
  unfold Setup.init.
  destruct (Setup.query_modules PXC_STATUS_NO_ERROR 0 answers
              [LogSession; LogLoopOverModules]) as [ev|] eqn:Hq; [|easy].
  destruct (query_modules_some _ _ _ _ Hq) as [Hr _]. cbn in Hr.
  assert (Hrel : released events = created 0 (listed answers) ->
                 released events = created 0 (listed answers) /\
                 List.NoDup (released events) /\
                 length (released events)
                 = length (List.filter
                             (fun m => negb (createStatus m <? PXC_STATUS_NO_ERROR))
                             (listed answers))).
  { intros E. split; [exact E|]. rewrite E. split; [apply created_NoDup|].
    apply created_length. }
  destruct captureManager, device; cbn; intros [= <-]; apply Hrel;
    rewrite !released_app, Hr; cbn; now rewrite ?app_nil_r.
Qed.

(** X19: When [init] ends, a module line is logged exactly for the created
    captures that showed at least one device, and only such captures are
    named. *)
Theorem modules_named_when_devices_found
    (answers : list ModuleAnswer) (captureManager device : bool)
    (events : list InitEvent) :
  init answers captureManager device = Some events ->
  logged_modules events = named 0 (listed answers) /\
  incl (logged_modules events) (released events).
Proof.
  unfold Setup.init.
  destruct (Setup.query_modules PXC_STATUS_NO_ERROR 0 answers
              [LogSession; LogLoopOverModules]) as [ev|] eqn:Hq; [|easy].
  destruct (query_modules_some _ _ _ _ Hq) as [Hr Hl]. cbn in Hr, Hl.
  assert (Hinc : incl (named 0 (listed answers)) (created 0 (listed answers)))
    by (intros i; apply named_created).
  destruct captureManager, device; cbn; intros [= <-];
    rewrite !released_app, !logged_modules_app, Hr, Hl; cbn;
    rewrite ?app_nil_r; easy.
Qed.

End InitMore.

(** * Keyboard events and the loop of the visualizer *)

Section EventsMore.
Import Events.

Variable AppState : Type.
Variables isCapturingStarted isGrabbingStarted : AppState -> bool.
Variables startCapturing startGrabbing stopCapturing : AppState -> AppState.
Variable Consumer : Type.
Variable loopBody : World AppState * Consumer -> World AppState * Consumer.

Local Abbreviation handleEvents :=
  (handleEvents AppState isCapturingStarted isGrabbingStarted
     startCapturing startGrabbing stopCapturing).
Local Abbreviation turn :=
  (turn AppState isCapturingStarted isGrabbingStarted
     startCapturing startGrabbing stopCapturing Consumer loopBody).
Local Abbreviation run :=
  (run AppState isCapturingStarted isGrabbingStarted
     startCapturing startGrabbing stopCapturing Consumer loopBody).

(** X20: Only the escape key triggers the cancellation, no key withdraws it,
    and every key other than space and escape, the absence of a key
    included, leaves the application state alone. *)
Theorem only_escape_cancels (key : Z) (w : World AppState) :
  cancel (handleEvents key w) = cancel w || (key =? escape) /\
  exiting (handleEvents key w)
  = (exiting w + if (key =? escape)%Z then 1 else 0)%nat /\
  (key <> space -> key <> escape -> handleEvents key w = w) /\
  (key = escape -> app (handleEvents key w) = stopCapturing (app w)).
Proof.
  unfold Events.handleEvents, escape, space.
  destruct (Z.eqb_spec key 32) as [->|Hs].
  - cbn. split; [|split; [|split]]; try easy.
    + destruct (isCapturingStarted (app w)); cbn;
        [destruct (isGrabbingStarted (app w)); cbn|]; now rewrite orb_false_r.
    + destruct (isCapturingStarted (app w)); cbn;
        [destruct (isGrabbingStarted (app w)); cbn|]; lia.
  - destruct (Z.eqb_spec key 27) as [->|He]; cbn.
    + split; [now rewrite orb_true_r|]. split; [lia|]. easy.
    + split; [now rewrite orb_false_r|]. split; [lia|]. easy.
Qed.

Lemma run_cancelled (keys : list Z) (s : World AppState * Consumer) :
  cancel (fst s) = true -> run keys s = (s, Cancelled).
Proof. intros Hc. destruct keys; cbn; now rewrite Hc. Qed.

Section Cooperative.

(** [loopBody] reads the token and never writes it. *)
Hypothesis loopBody_keeps_token :
  forall s, cancel (fst (loopBody s)) = cancel (fst s).

Lemma turn_cancel (s : World AppState * Consumer) (key : Z) :
  cancel (fst (turn s key)) = cancel (fst s) || (key =? escape).
Proof.
  unfold Events.turn. rewrite loopBody_keeps_token. cbn [fst].
  apply only_escape_cancels.
Qed.

(** X21: Until the escape key comes, every key polled is followed by one
    [loopBody]; the turn of the escape key still runs its [loopBody], and
    the loop then ends without polling another key. *)
Theorem escape_ends_the_loop (pre post : list Z)
    (s : World AppState * Consumer) :
  cancel (fst s) = false -> ~ In escape pre ->
  run pre s = (foldl turn s pre, StillPolling) /\
  run (pre ++ escape :: post) s
  = (foldl turn s (pre ++ [escape]), Cancelled) /\
  cancel (fst (foldl turn s (pre ++ [escape]))) = true.
Proof.
  revert s. induction pre as [|key pre IH]; intros s Hc Hpre.
  - cbn. rewrite Hc. split; [easy|].
    assert (Ht : cancel (fst (turn s escape)) = true)
      by (rewrite turn_cancel, Hc; easy).
    split; [now apply run_cancelled|exact Ht].
  - assert (Hk : key <> escape) by (intros ->; apply Hpre; now left).
    assert (Ht : cancel (fst (turn s key)) = false).
    { rewrite turn_cancel, Hc. cbn. now apply Z.eqb_neq. }
    destruct (IH (turn s key) Ht) as (I1 & I2 & I3).
    { intros Hin. apply Hpre. now right. }
    cbn. rewrite Hc. easy.
Qed.

End Cooperative.

End EventsMore.

(** ** The further properties on the sample inputs *)

Section MoreOnExamples.
Import Cv Visualizer Examples.

Local Abbreviation process := (process ortho).
Local Abbreviation aligned_depth := (aligned_depth ortho).

(** Resizing a 2x2 image to 4x3 twice. *)
Lemma resizeImg_idempotent_example :
  resizeImg (resizeImg (flat_depth 2 2 7) 4 3) 4 3 = resizeImg (flat_depth 2 2 7) 4 3.
Proof. apply resizeImg_idempotent; lia. Defined.

(** Pixel (2, 3) of a 2x2 image resized to 4x3. *)
Lemma resizeImg_takes_source_pixels_example :
  exists i j, (i < 2)%nat /\ (j < 2)%nat /\
    Mat_at (resizeImg (depth mixed_frame) 4 3) 2 3 = Mat_at (depth mixed_frame) i j.
Proof.
  apply (resizeImg_takes_source_pixels (depth mixed_frame) 4 3 2 3);
    vm_compute; lia.
Defined.


Lemma fusion_boost_bounds_example :
  Vec_get (Mat_at (shown (process (visualizer 0 false) (frame_at 5900))) 0 0) 1
  <= Vec_get (Mat_at (aligned_color (visualizer 0 false) (frame_at 5900)) 0 0) 1 + 37 /\
  (5850 < Mat_at (aligned_depth (visualizer 0 false) (frame_at 5900)) 0 0 ->
   Mat_at (shown (process (visualizer 0 false) (frame_at 5900))) 0 0
   = Mat_at (aligned_color (visualizer 0 false) (frame_at 5900)) 0 0).
Proof.
  apply (fusion_boost_bounds _ _ ortho (visualizer 0 false) (frame_at 5900) 0 0).
  - vm_compute. lia.
  - vm_compute. lia.
  - vm_compute. repeat split; discriminate.
  - vm_compute. split; [discriminate|reflexivity].
Defined.

Lemma no_depth_passthrough_example :
  Mat_at (shown (process (visualizer 0 false) void_frame)) 1 0
  = Mat_at (aligned_color (visualizer 0 false) void_frame) 1 0.
Proof.
  apply (no_depth_passthrough _ _ ortho (visualizer 0 false) void_frame 1 0).
  - reflexivity.
  - intros p Hin. vm_compute in Hin.
    destruct Hin as [<-|[<-|[]]]; reflexivity.
  - vm_compute. lia.
  - vm_compute. lia.
Defined.

Lemma cloud_depth_unresampled_example :
  aligned_depth (visualizer 0 false) cloud_frame
  = synthesize ortho (cam 2 2) (cloud cloud_frame) /\
  Mat_at (shown (process (visualizer 0 false) cloud_frame)) 0 1
  = Mat_at (aligned_color (visualizer 0 false) cloud_frame) 0 1 /\
  Vec_get (Mat_at (shown (process (visualizer 0 false) cloud_frame)) 0 0) 1
  = Z.min (Vec_get (Mat_at (aligned_color (visualizer 0 false) cloud_frame) 0 0) 1
           + (6000 - 1200) / 150) 255.
Proof.
  destruct (cloud_depth_unresampled _ _ ortho (visualizer 0 false) cloud_frame)
    as [E Hat].
  - reflexivity.
  - vm_compute. lia.
  - vm_compute. lia.
  - split; [exact E|]. split.
    + apply (Hat 0%nat 1%nat); [vm_compute; lia|vm_compute; lia|reflexivity].
    + apply (Hat 0%nat 0%nat); [vm_compute; lia|vm_compute; lia|reflexivity|lia|].
      vm_compute. repeat split; discriminate.
Defined.

Lemma false_colour_saturates_example :
  exists s img,
    written (process (visualizer 0 true) mixed_frame) = Some (s, img) /\
    Mat_at img 1 1 = far /\ Vec3b_ok (Mat_at img 0 0).
Proof.
  destruct (written (process (visualizer 0 true) mixed_frame))
    as [[s img]|] eqn:Hw; [|vm_compute in Hw; discriminate Hw].
  exists s, img. split; [reflexivity|].
  destruct (false_colour_saturates _ _ ortho (visualizer 0 true) mixed_frame
              s img 1 1 Hw) as (_ & Hfar & _); [vm_compute; lia|vm_compute; lia|].
  destruct (false_colour_saturates _ _ ortho (visualizer 0 true) mixed_frame
              s img 0 0 Hw) as (_ & _ & Hok & _); [vm_compute; lia|vm_compute; lia|].
  split; [|exact Hok]. apply Hfar. vm_compute. discriminate.
Defined.

Lemma false_colour_monotone_example :
  exists s img,
    written (process (visualizer 0 true) mixed_frame) = Some (s, img) /\
    Vec_get (Mat_at img 0 0) 0 <= Vec_get (Mat_at img 1 0) 0 /\
    Vec_get (Mat_at img 1 0) 2 <= Vec_get (Mat_at img 0 0) 2.
Proof.
  destruct (written (process (visualizer 0 true) mixed_frame))
    as [[s img]|] eqn:Hw; [|vm_compute in Hw; discriminate Hw].
  exists s, img. split; [reflexivity|].
  apply (false_colour_monotone _ _ ortho (visualizer 0 true) mixed_frame
           s img 0 0 1 0 Hw);
    vm_compute; (lia || discriminate).
Defined.

Lemma recorded_names_distinct_example :
  length (omap (fun r => option_map fst (written r))
            (fst (process_all ortho (visualizer 99999999 true)
                    [frame_at 1000; mixed_frame; cloud_frame])))
  = 3%nat /\
  NoDup (omap (fun r => option_map fst (written r))
           (fst (process_all ortho (visualizer 99999999 true)
                   [frame_at 1000; mixed_frame; cloud_frame]))).
Proof.
  apply (recorded_names_distinct _ _ ortho (visualizer 99999999 true)
           [frame_at 1000; mixed_frame; cloud_frame]).
  - vm_compute. discriminate.
  - reflexivity.
Defined.

Lemma later_answers_ignored_example :
  Grabber.acquire_loop 0 ([good_sample; no_depth_sample] ++ device_lost :: [good_sample])
    (Grabber.mkGrabber (Point3 := unit) [[]] 0 [])
  = Grabber.acquire_loop 0 ([good_sample; no_depth_sample] ++ [device_lost])
      (Grabber.mkGrabber (Point3 := unit) [[]] 0 []).
Proof.
  apply (later_answers_ignored unit 0 [good_sample; no_depth_sample] [good_sample]
           device_lost).
  vm_compute. reflexivity.
Defined.

Lemma init_ends_example :
  exists events, Setup.init 0 session_answers true true = Some events.
Proof. apply init_ends. vm_compute. reflexivity. Defined.

(** On [session_answers] the captures of modules 0 and 2 are released. *)
Lemma every_capture_released_once_example :
  exists events,
    Setup.init 0 session_answers true false = Some events /\
    Setup.released events = [0; 2]%nat.
Proof.
  destruct (Setup.init 0 session_answers true false) as [events|] eqn:Hi;
    [|vm_compute in Hi; discriminate Hi].
  exists events. split; [reflexivity|].
  apply (every_capture_released_once 0 session_answers true false events Hi).
Defined.

(** On [session_answers] only module 0 is named. *)
Lemma modules_named_example :
  exists events,
    Setup.init 0 session_answers false false = Some events /\
    Setup.logged_modules events = [0]%nat.
Proof.
  destruct (Setup.init 0 session_answers false false) as [events|] eqn:Hi;
    [|vm_compute in Hi; discriminate Hi].
  exists events. split; [reflexivity|].
  apply (modules_named_when_devices_found 0 session_answers false false events Hi).
Defined.

(** Space, no key, escape, space: the loop runs three turns and stops. *)
Lemma escape_ends_the_loop_example :
  Events.run switches fst snd start_capturing start_grabbing stop_capturing
    nat count_turn ([Events.space; -1] ++ Events.escape :: [Events.space]) idle_world
  = (foldl (Events.turn switches fst snd start_capturing start_grabbing
              stop_capturing nat count_turn)
       idle_world ([Events.space; -1] ++ [Events.escape]),
     Events.Cancelled).
Proof.
  apply (escape_ends_the_loop switches fst snd start_capturing start_grabbing
           stop_capturing nat count_turn (fun s => eq_refl)
           [Events.space; -1] [Events.space] idle_world).
  - reflexivity.
  - vm_compute. intros [H|[H|[]]]; discriminate H.
Defined.

End MoreOnExamples.
